(** * Pull-through cache facade of the registry: [registry/proxy/proxyregistry.go]

    A shallow embedding of the proxy registry facade: the origin resolver
    [extractRemoteURL], the auth challenger, the two eviction callbacks
    registered by [NewRegistryPullThroughCache], [proxyingRegistry.Repository]
    and the accessors of [proxiedRepository].

    Go values are embedded as follows.  A Go [string] is a byte string
    ([string] of [ascii]); an [int] index is a [Z]; an [error] result is
    [option error] ([None] is [nil]); a [(T, error)] result is [error + T].
    Go maps ([url.Values], the values of a request context) are [gmap]s.
    Calls into collaborators that live outside this file (the local
    registry, the vacuum, the remote client, the challenge manager and the
    upstream network) are events of a small free monad, [Prog]; a handler
    plays the collaborators, and running a program under a handler yields
    its result together with the list of calls that were made.  Logging and
    the challenger's mutex are not modelled: every program here is run
    sequentially. *)

From Stdlib Require Import ZArith String Ascii.
From stdpp Require Import base gmap strings list.

Local Open Scope string_scope.
Local Open Scope Z_scope.

(** ** Go's [strings] package, as far as this file uses it *)

Module strings.

(** [strings.IndexByte(s, c)]: the index of the first [c] in [s], or -1. *)
Fixpoint IndexByte (s : string) (c : ascii) : Z :=
  match s with
  | EmptyString => -1
  | String a s' =>
      if Ascii.eqb a c then 0
      else let i := IndexByte s' c in if i <? 0 then -1 else i + 1
  end.

(** [strings.IndexRune(s, r)] for a rune below [utf8.RuneSelf], the only
    kind this file passes: it is [IndexByte]. *)
Definition IndexRune (s : string) (r : ascii) : Z := IndexByte s r.

(** [strings.Index(s, substr)]: the index of the first occurrence of
    [substr] in [s], or -1. *)
Fixpoint Index (s substr : string) : Z :=
  if String.prefix substr s then 0
  else match s with
       | EmptyString => -1
       | String _ s' =>
           let i := Index s' substr in if i <? 0 then -1 else i + 1
       end.

(** The slices [s[:i]] and [s[i:]]. *)
Definition slice_to (s : string) (i : nat) : string := String.substring 0 i s.
Definition slice_from (s : string) (i : nat) : string :=
  String.substring i (String.length s - i) s.

(** [strings.Cut(s, sep)]. *)
Definition Cut (s sep : string) : string * string * bool :=
  let i := Index s sep in
  if 0 <=? i
  then (slice_to s (Z.to_nat i),
        slice_from s (Z.to_nat i + String.length sep), true)
  else (s, "", false).

End strings.

(** ** Errors *)

(** [digest.Digest] is a Go string type; [String()] is the conversion. *)
Definition Digest : Type := string.
Definition Digest_String (d : Digest) : string := d.

(** Modelled from the spec: [reference.Named], "a structured, validated
    identifier (host-qualified or bare) naming a repository; immutable once
    parsed".  The reference package is not in this file; a [Named] is the
    name it stands for. *)
Record Named : Type := mkNamed { Name : string }.

(** Modelled from the spec: [reference.Reference], "either a canonical
    (repository + digest) reference, used for blob/manifest identity, or a
    tag reference, used for tag identity". *)
Inductive Reference : Type :=
  | CanonicalRef (name : Named) (dgst : Digest)
  | TaggedRef (name : Named) (tag : string).

(** The errors this file creates itself, and those its collaborators hand
    back.  [ErrUnexpectedReferenceType ref] is
    [fmt.Errorf("unexpected reference type : %T", ref)]; [ErrInvalidNamespace]
    is [errors.New("ns parameter is missing and image is not prefixed with
    domain")].  The others come from outside: a context without a request, a
    name the reference grammar refuses, a backend that does not find what it
    is asked to delete, and anything else. *)
Inductive error : Type :=
  | ErrUnexpectedReferenceType (ref : Reference)
  | ErrInvalidNamespace
  | ErrNoRequestContext
  | ErrNameParse (name : string)
  | ErrNotFound
  | ErrOther (msg : string).

Global Instance Named_eq_dec : EqDecision Named.
Proof. solve_decision. Defined.
Global Instance Reference_eq_dec : EqDecision Reference.
Proof. solve_decision. Defined.
Global Instance error_eq_dec : EqDecision error.
Proof. solve_decision. Defined.

(** ** The reference grammar *)

(** The grammar of repository names belongs to the reference package and is
    a parameter here: [name_ok s] tells whether [s] is a well-formed
    repository name. *)
Class NameGrammar : Type := name_ok : string -> bool.

(** Modelled from the spec: [reference.WithName] parses a repository name;
    "malformed repository names at any stage fail with a NameParseError",
    and a name that parses is kept as it is. *)
Definition WithName `{NameGrammar} (name : string) : error + Named :=
  if name_ok name then inr (mkNamed name) else inl (ErrNameParse name).

(** ** URLs, requests and request contexts *)

(** The fields of [url.URL] this file reads or writes. *)
Record URL : Type := mkURL { Scheme : string; Host : string; Path : string }.

Global Instance URL_eq_dec : EqDecision URL.
Proof. solve_decision. Defined.

Definition with_Path (u : URL) (p : string) : URL := mkURL (Scheme u) (Host u) p.

(** [url.Values] is [map[string][]string]; [Get] returns the first value
    stored under the key, or the empty string. *)
Definition Values_Get (v : gmap string (list string)) (key : string) : string :=
  match v !! key with
  | Some (x :: _) => x
  | _ => ""
  end.

(** An [*http.Request], of which only [r.URL.Query()] is read. *)
Record Request : Type := mkRequest { Query : gmap string (list string) }.

(** Modelled from the spec: the request context, from which one can
    "retrieve the inbound HTTP request, a named string variable (the
    path-extracted repository name)".  [GetRequest] fails on a context that
    carries no request; [GetStringValue] is the empty string for a key that
    is not set. *)
Record Context : Type := mkContext {
  ctx_request : option Request;
  ctx_values : gmap string string
}.

Definition GetRequest (ctx : Context) : error + Request :=
  match ctx_request ctx with
  | Some r => inr r
  | None => inl ErrNoRequestContext
  end.

Definition GetStringValue (ctx : Context) (key : string) : string :=
  default "" (ctx_values ctx !! key).

(** ** The origin resolver *)

Section Resolver.
Context `{NameGrammar}.

Definition extractRemoteURL (ctx : Context) : error + (URL * Named) :=
  match GetRequest ctx with
  | inl err => inl err
  | inr r =>
      let ns := Values_Get (Query r) "ns" in
      let name := GetStringValue ctx "vars.name" in
      let cut :=
        if String.eqb ns ""
        then
          let '(ns, name, found) := strings.Cut name "/" in
          if negb found || (strings.IndexRune ns "." <? 1)
          then inl ErrInvalidNamespace
          else inr (ns, name)
        else inr (ns, name) in
      match cut with
      | inl err => inl err
      | inr (ns, name) =>
          match WithName name with
          | inl err => inl err
          | inr named => inr (mkURL "https" ns "", named)
          end
      end
  end.

End Resolver.

(** ** Collaborators *)

(** Interface values handed out by collaborators ([distribution.Repository],
    [distribution.BlobStore], ...) are opaque to this file: it only passes
    them on.  They are modelled as references known by identity. *)
Variant Repo : Type := RepoRef (id : nat).
Variant BlobStore : Type := BlobStoreRef (id : nat).
Variant ManifestService : Type := ManifestServiceRef (id : nat).
Variant TagService : Type := TagServiceRef (id : nat).
Variant Scheduler : Type := SchedulerRef (id : nat).
Variant CredentialStore : Type := CredentialStoreRef (id : nat).
Variant ChallengeManager : Type := ChallengeManagerRef (id : nat).

(** A [challenge.Challenge], of which this file only counts how many there
    are. *)
Variant Challenge : Type := mkChallenge (scheme : string).

(** A [distribution.ManifestServiceOption]; [storage.SkipLayerVerification()]
    is the one this file builds itself. *)
Variant ManifestServiceOption : Type :=
  | SkipLayerVerification
  | OtherOption (id : nat).

(** [auth.RepositoryScope] and the authorizing transport built from the
    challenger's manager and credential store. *)
Record RepositoryScope : Type := mkScope {
  scope_Repository : string;
  scope_Actions : list string
}.
Record Transport : Type := mkTransport {
  tr_manager : ChallengeManager;
  tr_credentials : CredentialStore;
  tr_scopes : list RepositoryScope
}.

(** The calls this file makes into its collaborators, indexed by what they
    return.  [Namespace_Repository] is [Repository(ctx, name)] on the local,
    non-proxying registry (the [registry] argument of the constructor, stored
    as [embedded]); [client_NewRepository] opens the remote client, its base
    URL being [remoteURL.String()]; [ping] is the unauthenticated probe of
    an endpoint, which feeds the response to the challenge manager. *)
Inductive call : Type -> Type :=
  | Namespace_Repository (name : Named) : call (error + Repo)
  | Repository_Blobs (repo : Repo) : call BlobStore
  | Repository_Manifests (repo : Repo) (options : list ManifestServiceOption)
      : call (error + ManifestService)
  | Repository_Tags (repo : Repo) : call TagService
  | BlobStore_Delete (blobs : BlobStore) (dgst : Digest) : call (option error)
  | ManifestService_Delete (manifests : ManifestService) (dgst : Digest)
      : call (option error)
  | Vacuum_RemoveBlob (dgst : string) : call (option error)
  | client_NewRepository (name : Named) (baseURL : URL) (tr : Transport)
      : call (error + Repo)
  | Manager_GetChallenges (cm : ChallengeManager) (endpoint : URL)
      : call (error + list Challenge)
  | ping (cm : ChallengeManager) (endpoint : URL) : call (option error).

(** Programs: a result, or a call followed by the rest of the program. *)
Inductive Prog (R : Type) : Type :=
  | Ret (r : R)
  | Call {X : Type} (c : call X) (k : X -> Prog R).
Arguments Ret {R} r.
Arguments Call {R X} c k.

Notation "'let!' x ':=' c 'in' k" := (Call c (fun x => k))
  (at level 10, x name, c at level 100, k at level 200,
   format "'[v' 'let!'  x  ':='  c  'in' '/' k ']'").

(** What was called and what came back. *)
Inductive entry : Type :=
  | Entry {X : Type} (c : call X) (x : X).

(** A handler plays every collaborator over a state of its own. *)
Definition handler (S : Type) : Type := forall X, call X -> S -> X * S.

Fixpoint run {S R : Type} (h : handler S) (p : Prog R) (s : S)
  : R * S * list entry :=
  match p with
  | Ret r => (r, s, [])
  | Call c k =>
      let '(x, s1) := h _ c s in
      let '(r, s2, t) := run h (k x) s1 in
      (r, s2, Entry c x :: t)
  end.

Definition result {S R : Type} (o : R * S * list entry) : R := fst (fst o).
Definition final {S R : Type} (o : R * S * list entry) : S := snd (fst o).
Definition trace {S R : Type} (o : R * S * list entry) : list entry := snd o.

(** The probes of a trace. *)
Definition is_probe (e : entry) : bool :=
  match e with Entry (ping _ _) _ => true | _ => false end.

Definition probes (t : list entry) : nat := length (List.filter is_probe t).

(** The names the local registry was asked to open, and the name and base
    URL of every remote client opened. *)
Definition local_opens (t : list entry) : list Named :=
  omap (fun e => match e with
                 | Entry (Namespace_Repository n) _ => Some n
                 | _ => None
                 end) t.
Definition remote_opens (t : list entry) : list (Named * URL) :=
  omap (fun e => match e with
                 | Entry (client_NewRepository n u _) _ => Some (n, u)
                 | _ => None
                 end) t.

(** ** The eviction callbacks of [NewRegistryPullThroughCache] *)

(** The type assertion [ref.(reference.Canonical)]. *)
Definition asCanonical (ref : Reference) : option (Named * Digest) :=
  match ref with
  | CanonicalRef n d => Some (n, d)
  | TaggedRef _ _ => None
  end.

(** The function given to [s.OnBlobExpire]. *)
Definition onBlobExpire (ref : Reference) : Prog (option error) :=
  match asCanonical ref with
  | None => Ret (Some (ErrUnexpectedReferenceType ref))
  | Some (r, dgst) =>
      let! res := Namespace_Repository r in
      match res with
      | inl err => Ret (Some err)
      | inr repo =>
          let! blobs := Repository_Blobs repo in
          let! err := BlobStore_Delete blobs dgst in
          match err with
          | Some e => Ret (Some e)
          | None =>
              let! err := Vacuum_RemoveBlob (Digest_String dgst) in
              match err with
              | Some e => Ret (Some e)
              | None => Ret None
              end
          end
      end
  end.

(** The function given to [s.OnManifestExpire]. *)
Definition onManifestExpire (ref : Reference) : Prog (option error) :=
  match asCanonical ref with
  | None => Ret (Some (ErrUnexpectedReferenceType ref))
  | Some (r, dgst) =>
      let! res := Namespace_Repository r in
      match res with
      | inl err => Ret (Some err)
      | inr repo =>
          let! res := Repository_Manifests repo [] in
          match res with
          | inl err => Ret (Some err)
          | inr manifests =>
              let! err := ManifestService_Delete manifests dgst in
              match err with
              | Some e => Ret (Some e)
              | None => Ret None
              end
          end
      end
  end.

(** ** The auth challenger *)

Record remoteAuthChallenger : Type := mkChallenger {
  rac_remoteURL : URL;
  rac_enableNamespaces : bool;
  cm : ChallengeManager;
  cs : CredentialStore
}.

Definition credentialStore (r : remoteAuthChallenger) : CredentialStore := cs r.
Definition challengeManager (r : remoteAuthChallenger) : ChallengeManager := cm r.

Section Challenger.
Context `{NameGrammar}.

(** The origin a call of [tryEstablishChallenges] is about: the one
    configured, or in namespace mode the one of the request. *)
Definition challengedURL (r : remoteAuthChallenger) (ctx : Context)
  : error + URL :=
  if rac_enableNamespaces r
  then match extractRemoteURL ctx with
       | inl err => inl err
       | inr (requestRemoteNSURL, _) => inr requestRemoteNSURL
       end
  else inr (rac_remoteURL r).

Definition tryEstablishChallenges (r : remoteAuthChallenger) (ctx : Context)
  : Prog (option error) :=
  match challengedURL r ctx with
  | inl err => Ret (Some err)
  | inr remoteURL =>
      let remoteURL := with_Path remoteURL "/v2/" in
      let! res := Manager_GetChallenges (cm r) remoteURL in
      match res with
      | inl err => Ret (Some err)
      | inr challenges =>
          if (0 <? length challenges)%nat then Ret None
          else
            let! err := ping (cm r) remoteURL in
            match err with
            | Some e => Ret (Some e)
            | None => Ret None
            end
      end
  end.

End Challenger.

(** ** The proxy registry and the repositories it hands out *)

(** The pull-through stores, as [Repository] fills them in. *)
Record proxyBlobStore : Type := mkProxyBlobStore {
  localStore : BlobStore;
  remoteStore : BlobStore;
  bs_scheduler : Scheduler;
  bs_repositoryName : Named;
  bs_authChallenger : remoteAuthChallenger
}.

Record proxyManifestStore : Type := mkProxyManifestStore {
  ms_repositoryName : Named;
  localManifests : ManifestService;
  remoteManifests : ManifestService;
  ms_ctx : Context;
  ms_scheduler : Scheduler;
  ms_authChallenger : remoteAuthChallenger
}.

Record proxyTagService : Type := mkProxyTagService {
  localTags : TagService;
  remoteTags : TagService;
  ts_authChallenger : remoteAuthChallenger
}.

Record proxiedRepository : Type := mkProxiedRepository {
  blobStore : proxyBlobStore;
  manifests : proxyManifestStore;
  name : Named;
  tags : proxyTagService
}.

(** [embedded], the local registry, is the collaborator behind
    [Namespace_Repository]. *)
Record proxyingRegistry : Type := mkProxyingRegistry {
  scheduler : Scheduler;
  remoteURL : URL;
  enableNamespaces : bool;
  authChallenger : remoteAuthChallenger
}.

Section Registry.
Context `{NameGrammar}.

(** The transport of [Repository]: token handling with the challenger's
    credentials, scoped to pulling the requested name. *)
Definition pullTransport (c : remoteAuthChallenger) (name : Named) : Transport :=
  mkTransport (challengeManager c) (credentialStore c)
    [mkScope (Name name) ["pull"]].

(** Lines 154 to 167: the local name, the remote URL and the remote name
    of a request. *)
Definition resolveNames (pr : proxyingRegistry) (ctx : Context) (name : Named)
  : error + (Named * URL * Named) :=
  let localName := name in
  let remoteURL := remoteURL pr in
  if enableNamespaces pr
  then match extractRemoteURL ctx with
       | inl err => inl err
       | inr (remoteURL, name) =>
           match WithName (Host remoteURL +:+ "/" +:+ Name name) with
           | inl err => inl err
           | inr localName => inr (localName, remoteURL, name)
           end
       end
  else inr (localName, remoteURL, name).

Definition Repository (pr : proxyingRegistry) (ctx : Context) (name : Named)
  : Prog (error + proxiedRepository) :=
  let c := authChallenger pr in
  let tr := pullTransport c name in
  match resolveNames pr ctx name with
  | inl err => Ret (inl err)
  | inr (localName, remoteURL, name) =>
      let! res := Namespace_Repository localName in
      match res with
      | inl err => Ret (inl err)
      | inr localRepo =>
      let! res := Repository_Manifests localRepo [SkipLayerVerification] in
      match res with
      | inl err => Ret (inl err)
      | inr localManifests =>
      let! res := client_NewRepository name remoteURL tr in
      match res with
      | inl err => Ret (inl err)
      | inr remoteRepo =>
      let! res := Repository_Manifests remoteRepo [] in
      match res with
      | inl err => Ret (inl err)
      | inr remoteManifests =>
      let! localBlobs := Repository_Blobs localRepo in
      let! remoteBlobs := Repository_Blobs remoteRepo in
      let! localTags := Repository_Tags localRepo in
      let! remoteTags := Repository_Tags remoteRepo in
      Ret (inr {|
        blobStore := {|
          localStore := localBlobs;
          remoteStore := remoteBlobs;
          bs_scheduler := scheduler pr;
          bs_repositoryName := localName;
          bs_authChallenger := authChallenger pr |};
        manifests := {|
          ms_repositoryName := localName;
          localManifests := localManifests;
          remoteManifests := remoteManifests;
          ms_ctx := ctx;
          ms_scheduler := scheduler pr;
          ms_authChallenger := authChallenger pr |};
        name := name;
        tags := {|
          localTags := localTags;
          remoteTags := remoteTags;
          ts_authChallenger := authChallenger pr |} |})
      end end end end
  end.

End Registry.

(** The accessors of [proxiedRepository]. *)
Module proxiedRepository_.

Definition Manifests (pr : proxiedRepository) (ctx : Context)
    (options : list ManifestServiceOption) : error + proxyManifestStore :=
  inr (manifests pr).

Definition Blobs (pr : proxiedRepository) (ctx : Context) : proxyBlobStore :=
  blobStore pr.

Definition Tags (pr : proxiedRepository) (ctx : Context) : proxyTagService :=
  tags pr.

Definition Named (pr : proxiedRepository) : Named := name pr.

End proxiedRepository_.

(** ** Observing a run *)

(** The per-repository deletions of a trace, blob or manifest, each with the
    digest asked for and what the backend answered; and the same for the
    vacuum. *)
Definition deletes (t : list entry) : list (Digest * option error) :=
  omap (fun e => match e with
                 | Entry (BlobStore_Delete _ d) r => Some (d, r)
                 | Entry (ManifestService_Delete _ d) r => Some (d, r)
                 | _ => None
                 end) t.
Definition vacuums (t : list entry) : list (string * option error) :=
  omap (fun e => match e with
                 | Entry (Vacuum_RemoveBlob d) r => Some (d, r)
                 | _ => None
                 end) t.

(** Running programs one after the other. *)
Fixpoint run_all {S R : Type} (h : handler S) (ps : list (Prog R)) (s : S)
  : list R * S * list entry :=
  match ps with
  | [] => ([], s, [])
  | p :: ps' =>
      let '(r, s1, t1) := run h p s in
      let '(rs, s2, t2) := run_all h ps' s1 in
      (r :: rs, s2, (t1 ++ t2)%list)
  end.

(** The challenge manager holds at least one challenge for an endpoint:
    asking it yields a non-empty list. *)
Definition holds_challenge {S : Type} (h : handler S) (c : ChallengeManager)
    (endpoint : URL) (s : S) : Prop :=
  exists ch chs, fst (h _ (Manager_GetChallenges c endpoint) s) = inr (ch :: chs).

(** Asking the manager for the challenges of an endpoint is a read: it does
    not make the manager forget them. *)
Definition reads_keep {S : Type} (h : handler S) (c : ChallengeManager)
    (endpoint : URL) : Prop :=
  forall s, holds_challenge h c endpoint s ->
    holds_challenge h c endpoint (snd (h _ (Manager_GetChallenges c endpoint) s)).

(** ** Occurrences of a byte in a string *)

(** A byte occurs in a string, at a given index or anywhere. *)
Definition occurs_at (c : ascii) (s : string) (i : nat) : Prop :=
  String.get i s = Some c.
Definition occurs (c : ascii) (s : string) : Prop := exists i, occurs_at c s i.

(** The first occurrence of a byte. *)
Definition first_at (c : ascii) (s : string) (i : nat) : Prop :=
  occurs_at c s i /\ forall j, (j < i)%nat -> ~ occurs_at c s j.

(** ** A simulated backend and upstream

    To run the programs above on concrete requests: a grammar of names, and
    a handler over a small world. *)

(** Non-empty names of at most 255 bytes over lower-case letters, digits
    and the separators of host-qualified paths. *)
Definition sample_byte_ok (a : ascii) : bool :=
  let n := nat_of_ascii a in
  ((97 <=? n) && (n <=? 122) || (48 <=? n) && (n <=? 57)
   || bool_decide (a ∈ ["."; "_"; "-"; "/"; ":"]%char))%nat.

Fixpoint all_bytes (p : ascii -> bool) (s : string) : bool :=
  match s with
  | EmptyString => true
  | String a s' => p a && all_bytes p s'
  end.

Definition sample_grammar : NameGrammar :=
  fun s => negb (String.eqb s "") && (String.length s <=? 255)%nat
           && all_bytes sample_byte_ok s.

(** The rendering of the URLs of this file, with their scheme and host set
    and a path that is empty or absolute. *)
Definition URL_String (u : URL) : string :=
  Scheme u +:+ "://" +:+ Host u +:+ Path u.

(** The world: the challenges the manager has cached by endpoint, and the
    digests of the blobs and manifests linked in the local store and of the
    blob files the vacuum can remove. *)
Record World : Type := mkWorld {
  w_challenges : gmap string (list Challenge);
  w_blobs : gset string;
  w_manifests : gset string;
  w_files : gset string
}.

(** Modelled from the spec: the challenge manager is a cache "keyed by
    origin; lazily established, then reused"; a probe inspects "the
    response's challenge header(s) to populate the cache" and transport
    errors are propagated.  Deleting what is not there is answered with
    not-found.  [upstream] is what a probe of an endpoint comes back with. *)
Definition sim (upstream : string -> error + list Challenge) : handler World :=
  fun X c =>
    match c in call X return World -> X * World with
    | Namespace_Repository _ => fun w => (inr (RepoRef 0), w)
    | client_NewRepository _ _ _ => fun w => (inr (RepoRef 1), w)
    | Repository_Blobs (RepoRef i) => fun w => (BlobStoreRef i, w)
    | Repository_Manifests (RepoRef i) _ => fun w => (inr (ManifestServiceRef i), w)
    | Repository_Tags (RepoRef i) => fun w => (TagServiceRef i, w)
    | BlobStore_Delete _ d => fun w =>
        if bool_decide (d ∈ w_blobs w)
        then (None, mkWorld (w_challenges w) (w_blobs w ∖ {[d]}) (w_manifests w) (w_files w))
        else (Some ErrNotFound, w)
    | ManifestService_Delete _ d => fun w =>
        if bool_decide (d ∈ w_manifests w)
        then (None, mkWorld (w_challenges w) (w_blobs w) (w_manifests w ∖ {[d]}) (w_files w))
        else (Some ErrNotFound, w)
    | Vacuum_RemoveBlob d => fun w =>
        if bool_decide (d ∈ w_files w)
        then (None, mkWorld (w_challenges w) (w_blobs w) (w_manifests w) (w_files w ∖ {[d]}))
        else (Some ErrNotFound, w)
    | Manager_GetChallenges _ u => fun w =>
        (inr (default [] (w_challenges w !! URL_String u)), w)
    | ping _ u => fun w =>
        match upstream (URL_String u) with
        | inl err => (Some err, w)
        | inr chs =>
            (None, mkWorld (<[URL_String u := chs]> (w_challenges w))
                     (w_blobs w) (w_manifests w) (w_files w))
        end
    end.

(** An upstream that asks every client for a bearer token, and one that is
    open to all. *)
Definition bearer_upstream (endpoint : string) : error + list Challenge :=
  inr [mkChallenge "bearer"].
Definition open_upstream (endpoint : string) : error + list Challenge :=
  inr [].

Definition empty_world : World := mkWorld ∅ ∅ ∅ ∅.
Definition world_with (dgst : string) : World :=
  mkWorld ∅ {[dgst]} {[dgst]} {[dgst]}.

(** Requests: one for [name] without query parameters, and one that names
    its namespace. *)
Definition request_for (name : string) : Context :=
  mkContext (Some (mkRequest ∅)) {["vars.name" := name]}.
Definition request_in (ns name : string) : Context :=
  mkContext (Some (mkRequest {["ns" := [ns]]})) {["vars.name" := name]}.

Definition sample_challenger (namespaces : bool) : remoteAuthChallenger :=
  mkChallenger (mkURL "https" "registry-1.docker.io" "") namespaces
    (ChallengeManagerRef 0) (CredentialStoreRef 0).
Definition sample_registry (namespaces : bool) : proxyingRegistry :=
  mkProxyingRegistry (SchedulerRef 0) (mkURL "https" "registry-1.docker.io" "")
    namespaces (sample_challenger namespaces).

(** ** More to observe in a run *)

(** The error an entry carries, when the call it records failed. *)
Definition entry_error (e : entry) : option error :=
  match e with
  | Entry c x =>
      match c in call X return X -> option error with
      | Namespace_Repository _ => fun x => match x with inl err => Some err | inr _ => None end
      | Repository_Blobs _ => fun _ => None
      | Repository_Manifests _ _ => fun x => match x with inl err => Some err | inr _ => None end
      | Repository_Tags _ => fun _ => None
      | BlobStore_Delete _ _ => fun x => x
      | ManifestService_Delete _ _ => fun x => x
      | Vacuum_RemoveBlob _ => fun x => x
      | client_NewRepository _ _ _ => fun x => match x with inl err => Some err | inr _ => None end
      | Manager_GetChallenges _ _ => fun x => match x with inl err => Some err | inr _ => None end
      | ping _ _ => fun x => x
      end x
  end.

(** The manager and endpoint of every question put to a challenge manager
    and of every probe. *)
Definition manager_calls (t : list entry) : list (ChallengeManager * URL) :=
  omap (fun e => match e with
                 | Entry (Manager_GetChallenges c u) _ => Some (c, u)
                 | Entry (ping c u) _ => Some (c, u)
                 | _ => None
                 end) t.

(** The transport of every remote client opened, and the repository and
    options of every manifest accessor asked for. *)
Definition remote_transports (t : list entry) : list Transport :=
  omap (fun e => match e with
                 | Entry (client_NewRepository _ _ tr) _ => Some tr
                 | _ => None
                 end) t.
Definition manifest_opens (t : list entry)
  : list (Repo * list ManifestServiceOption) :=
  omap (fun e => match e with
                 | Entry (Repository_Manifests repo options) _ => Some (repo, options)
                 | _ => None
                 end) t.

(** ** The constructor *)

(** [configuration.ProxyCredential] and the fields of [configuration.Proxy]
    the constructor reads. *)
Record ProxyCredential : Type := mkProxyCredential {
  cred_Username : string;
  cred_Password : string
}.

Record Proxy : Type := mkProxy {
  RemoteURL : string;
  Username : string;
  Password : string;
  EnableNamespaces : bool;
  NamespaceCredentials : gmap string ProxyCredential
}.

(** What the constructor obtains from outside this file: the outcome of
    [url.Parse], the scheduler made by [scheduler.New] and the outcome of
    its [Start], the credential store [configureAuth] builds from a
    credential map, and the manager made by [challenge.NewSimpleManager]. *)
Record Outside : Type := mkOutside {
  url_Parse : string -> error + URL;
  scheduler_New : Scheduler;
  scheduler_Start : option error;
  configureAuth : gmap string ProxyCredential -> error + CredentialStore;
  challenge_NewSimpleManager : ChallengeManager
}.

(** [NewRegistryPullThroughCache].  The two functions it registers with the
    scheduler are [onBlobExpire] and [onManifestExpire] above. *)
Definition NewRegistryPullThroughCache (out : Outside) (config : Proxy)
  : error + proxyingRegistry :=
  match url_Parse out (RemoteURL config) with
  | inl err => inl err
  | inr remoteURL =>
      let s := scheduler_New out in
      match scheduler_Start out with
      | Some err => inl err
      | None =>
          let NamespaceCredentials :=
            if negb (EnableNamespaces config)
            then {[ RemoteURL config :=
                      mkProxyCredential (Username config) (Password config) ]}
            else NamespaceCredentials config in
          match configureAuth out NamespaceCredentials with
          | inl err => inl err
          | inr cs =>
              inr {| scheduler := s;
                     remoteURL := remoteURL;
                     enableNamespaces := EnableNamespaces config;
                     authChallenger :=
                       {| rac_remoteURL := remoteURL;
                          rac_enableNamespaces := EnableNamespaces config;
                          cm := challenge_NewSimpleManager out;
                          cs := cs |} |}
          end
      end
  end.

(** ** Collaborators that fail

    [faulty fault upstream] answers a call with the error [fault] names for
    it, if any, and as [sim upstream] otherwise.  Accessors that cannot fail
    are always answered as by [sim]. *)
Definition faulty (fault : forall X, call X -> option error)
    (upstream : string -> error + list Challenge) : handler World :=
  fun X c =>
    match fault X c with
    | None => sim upstream X c
    | Some err =>
        match c in call X return (World -> X * World) -> World -> X * World with
        | Namespace_Repository _ => fun _ w => (inl err, w)
        | Repository_Blobs _ => fun answer => answer
        | Repository_Manifests _ _ => fun _ w => (inl err, w)
        | Repository_Tags _ => fun answer => answer
        | BlobStore_Delete _ _ => fun _ w => (Some err, w)
        | ManifestService_Delete _ _ => fun _ w => (Some err, w)
        | Vacuum_RemoveBlob _ => fun _ w => (Some err, w)
        | client_NewRepository _ _ _ => fun _ w => (inl err, w)
        | Manager_GetChallenges _ _ => fun _ w => (inl err, w)
        | ping _ _ => fun _ w => (Some err, w)
        end (sim upstream X c)
    end.

Definition lookup_fault (err : error) : forall X, call X -> option error :=
  fun X c => match c with Namespace_Repository _ => Some err | _ => None end.
Definition remote_fault (err : error) : forall X, call X -> option error :=
  fun X c => match c with client_NewRepository _ _ _ => Some err | _ => None end.
Definition probe_fault (err : error) : forall X, call X -> option error :=
  fun X c => match c with ping _ _ => Some err | _ => None end.

(** A sample configuration and what it is built with: URLs of the form
    [https://host] parse, the scheduler starts, and any credential map
    gives a credential store. *)
Definition sample_Parse (s : string) : error + URL :=
  if String.prefix "https://" s
  then inr (mkURL "https" (strings.slice_from s 8) "")
  else inl (ErrOther "unsupported URL").

Definition sample_outside : Outside :=
  mkOutside sample_Parse (SchedulerRef 0) None
    (fun _ => inr (CredentialStoreRef 0)) (ChallengeManagerRef 0).

Definition sample_config (namespaces : bool) : Proxy :=
  mkProxy "https://registry-1.docker.io" "user" "secret" namespaces
    {[ "quay.io" := mkProxyCredential "other" "hidden" ]}.

(** * Properties *)

(** ** Strings *)

Section StringFacts.

Lemma not_occurs_nil c : ~ occurs c "".
Proof. intros [i Hi]. destruct i; discriminate. Qed.

Lemma occurs_cons c a s : occurs c (String a s) <-> a = c \/ occurs c s.
Proof.
  split.
  - intros [[|i] Hi]; unfold occurs_at in Hi; simpl in Hi.
    + left. congruence.
    + right. now exists i.
  - intros [-> | [i Hi]].
    + now exists 0%nat.
    + now exists (S i).
Qed.

Lemma IndexByte_lower s c : -1 <= strings.IndexByte s c.
Proof.
  induction s as [|a s IH]; simpl; [lia|].
  destruct (Ascii.eqb a c); [lia|].
  destruct (Z.ltb_spec (strings.IndexByte s c) 0); lia.
Qed.

Lemma IndexByte_absent s c : strings.IndexByte s c = -1 <-> ~ occurs c s.
Proof.
  induction s as [|a s IH]; simpl.
  - split; [intros _; apply not_occurs_nil | reflexivity].
  - rewrite occurs_cons. destruct (Ascii.eqb_spec a c) as [->|Hne].
    + split; [discriminate | intros Hn; exfalso; apply Hn; now left].
    + pose proof (IndexByte_lower s c).
      destruct (Z.ltb_spec (strings.IndexByte s c) 0).
      * split; [intros _ | reflexivity].
        intros [Heq | Hocc]; [contradiction|].
        apply IH in Hocc; [exact Hocc | lia].
      * split; [lia|]. intros Hn. exfalso.
        assert (strings.IndexByte s c = -1) by (apply IH; tauto). lia.
Qed.

Lemma IndexByte_first s c i :
  strings.IndexByte s c = Z.of_nat i <-> first_at c s i.
Proof.
  revert i. induction s as [|a s IH]; intros i; simpl.
  - split; [lia|]. intros [Hi _]. destruct i; discriminate.
  - destruct (Ascii.eqb_spec a c) as [->|Hne].
    + split.
      * intros Hi. assert (i = 0%nat) as -> by lia.
        split; [reflexivity | intros j Hj; lia].
      * intros [Hi Hmin]. destruct i as [|i]; [reflexivity|].
        exfalso. apply (Hmin 0%nat); [lia | reflexivity].
    + destruct (Z.ltb_spec (strings.IndexByte s c) 0) as [Hneg|Hpos].
      * split; [lia|]. intros [Hi _]. exfalso.
        pose proof (IndexByte_lower s c).
        assert (Habs : ~ occurs c s) by (apply IndexByte_absent; lia).
        destruct i as [|i]; unfold occurs_at in Hi; simpl in Hi.
        -- congruence.
        -- apply Habs. now exists i.
      * destruct i as [|i].
        -- split; [lia|]. intros [Hi _].
           unfold occurs_at in Hi; simpl in Hi. congruence.
        -- specialize (IH i). split.
           ++ intros Hi. assert (Hi' : strings.IndexByte s c = Z.of_nat i) by lia.
              apply IH in Hi'. destruct Hi' as [Hat Hmin]. split; [exact Hat|].
              intros [|j] Hj; unfold occurs_at; simpl; [congruence|].
              apply Hmin. lia.
           ++ intros [Hat Hmin].
              assert (Hi' : strings.IndexByte s c = Z.of_nat i).
              { apply IH. split; [exact Hat|].
                intros j Hj. apply (Hmin (S j)). lia. }
              lia.
Qed.

(** The test of the resolver, [strings.IndexRune(ns, '.') < 1], fails
    exactly when the first period of [ns] is at index 1 or later. *)
Lemma IndexRune_ge_1 s c :
  (strings.IndexRune s c <? 1) = false <->
  exists i, (1 <= i)%nat /\ first_at c s i.
Proof.
  unfold strings.IndexRune. rewrite Z.ltb_ge. split.
  - intros Hge. exists (Z.to_nat (strings.IndexByte s c)). split; [lia|].
    apply IndexByte_first. lia.
  - intros (i & Hi & Hfirst). apply IndexByte_first in Hfirst. lia.
Qed.

Lemma Index_found b a :
  ~ occurs "/" b -> strings.Index (b +:+ "/" +:+ a) "/" = Z.of_nat (String.length b).
Proof.
  induction b as [|x b IH]; intros Hno.
  - destruct a; reflexivity.
  - rewrite occurs_cons in Hno.
    change (String x b +:+ "/" +:+ a) with (String x (b +:+ "/" +:+ a)).
    cbn [strings.Index String.prefix].
    destruct (ascii_dec "/" x) as [Heq|_]; [exfalso; apply Hno; now left|].
    rewrite IH by tauto.
    destruct (Z.ltb_spec (Z.of_nat (String.length b)) 0); simpl String.length; lia.
Qed.

Lemma Index_absent s : ~ occurs "/" s -> strings.Index s "/" = -1.
Proof.
  induction s as [|x s IH]; intros Hno; [reflexivity|].
  rewrite occurs_cons in Hno.
  cbn [strings.Index String.prefix].
  destruct (ascii_dec "/" x) as [Heq|_]; [exfalso; apply Hno; now left|].
  rewrite IH by tauto. reflexivity.
Qed.

Lemma substring_all s : String.substring 0 (String.length s) s = s.
Proof. induction s as [|x s IH]; simpl; [reflexivity | now rewrite IH]. Qed.

Lemma slice_to_app b t : strings.slice_to (b +:+ t) (String.length b) = b.
Proof.
  unfold strings.slice_to.
  induction b as [|x b IH]; simpl; [now destruct t | now rewrite IH].
Qed.

Lemma slice_from_app b t :
  strings.slice_from (b +:+ t) (String.length b) = t.
Proof.
  unfold strings.slice_from.
  induction b as [|x b IH]; simpl.
  - rewrite Nat.sub_0_r. apply substring_all.
  - exact IH.
Qed.

Lemma append_assoc (s t u : string) : s +:+ (t +:+ u) = (s +:+ t) +:+ u.
Proof.
  induction s as [|x s IH]; [reflexivity|].
  change (String x (s +:+ (t +:+ u)) = String x ((s +:+ t) +:+ u)).
  now rewrite IH.
Qed.

Lemma length_append (s t : string) :
  String.length (s +:+ t) = (String.length s + String.length t)%nat.
Proof.
  induction s as [|x s IH]; [reflexivity|].
  change (S (String.length (s +:+ t)) = S (String.length s + String.length t)).
  now rewrite IH.
Qed.

(** [strings.Cut] on a single slash: the text before the first slash and
    the text after it. *)
Lemma Cut_found b a :
  ~ occurs "/" b -> strings.Cut (b +:+ "/" +:+ a) "/" = (b, a, true).
Proof.
  intros Hno. unfold strings.Cut. rewrite (Index_found b a Hno).
  destruct (Z.leb_spec 0 (Z.of_nat (String.length b))); [|lia].
  rewrite Nat2Z.id, slice_to_app. repeat f_equal.
  rewrite append_assoc, <- length_append. apply slice_from_app.
Qed.

Lemma Cut_not_found s : ~ occurs "/" s -> strings.Cut s "/" = (s, "", false).
Proof.
  intros Hno. unfold strings.Cut. now rewrite (Index_absent s Hno).
Qed.

End StringFacts.

(** ** The origin resolver *)

Section ResolverFacts.
Context `{NameGrammar}.

(** A name either has no slash or splits, in one way only, at its first
    one. *)
Lemma first_slash_split s :
  occurs "/" s -> exists b a, s = b +:+ "/" +:+ a /\ ~ occurs "/" b.
Proof.
  induction s as [|x s IH]; intros Hocc.
  - now apply not_occurs_nil in Hocc.
  - destruct (ascii_dec x "/") as [->|Hne].
    + exists "", s. split; [reflexivity | apply not_occurs_nil].
    + apply occurs_cons in Hocc. destruct Hocc as [Heq | Hocc]; [contradiction|].
      destruct (IH Hocc) as (b & a & -> & Hb).
      exists (String x b), a. split; [reflexivity|].
      rewrite occurs_cons. tauto.
Qed.

(** The resolver when the request names its namespace. *)
Lemma extractRemoteURL_explicit ctx r :
  GetRequest ctx = inr r -> Values_Get (Query r) "ns" <> "" ->
  extractRemoteURL ctx =
  match WithName (GetStringValue ctx "vars.name") with
  | inl err => inl err
  | inr named => inr (mkURL "https" (Values_Get (Query r) "ns") "", named)
  end.
Proof.
  intros Hr Hns. unfold extractRemoteURL. rewrite Hr.
  apply String.eqb_neq in Hns. rewrite Hns. reflexivity.
Qed.

(** The resolver when it does not: the name is cut at its first slash. *)
Lemma extractRemoteURL_fallback ctx r seg rest found :
  GetRequest ctx = inr r -> Values_Get (Query r) "ns" = "" ->
  strings.Cut (GetStringValue ctx "vars.name") "/" = (seg, rest, found) ->
  extractRemoteURL ctx =
  if negb found || (strings.IndexRune seg "." <? 1)
  then inl ErrInvalidNamespace
  else match WithName rest with
       | inl err => inl err
       | inr named => inr (mkURL "https" seg "", named)
       end.
Proof.
  intros Hr Hns Hcut. unfold extractRemoteURL. rewrite Hr, Hns, Hcut.
  cbn [String.eqb]. destruct (negb found || _); reflexivity.
Qed.

(** C1, as the code has it: in namespace mode, for a request whose [ns]
    parameter is missing, the resolver splits the repository name at its
    first slash.  When the name has no slash, or its first segment has no
    period, or that segment's first period is its leading byte, resolution
    fails with the invalid-namespace error.  Otherwise the remainder is
    parsed as a repository name: when it parses, the origin is the first
    segment under [https] and the remote name is the remainder; when it
    does not, resolution fails with the parse error.  No origin is
    returned on failure. *)
Theorem fallback_resolution ctx r :
  GetRequest ctx = inr r -> Values_Get (Query r) "ns" = "" ->
  (forall seg rest,
      GetStringValue ctx "vars.name" = seg +:+ "/" +:+ rest ->
      ~ occurs "/" seg ->
      ((exists i, (1 <= i)%nat /\ first_at "." seg i) ->
       (name_ok rest = true ->
        extractRemoteURL ctx = inr (mkURL "https" seg "", mkNamed rest)) /\
       (name_ok rest = false ->
        extractRemoteURL ctx = inl (ErrNameParse rest))) /\
      (~ (exists i, (1 <= i)%nat /\ first_at "." seg i) ->
       extractRemoteURL ctx = inl ErrInvalidNamespace)) /\
  (~ occurs "/" (GetStringValue ctx "vars.name") ->
   extractRemoteURL ctx = inl ErrInvalidNamespace).
Proof.
  intros Hr Hns. split.
  - intros seg rest Hname Hseg.
    pose proof (Cut_found seg rest Hseg) as Hcut. rewrite <- Hname in Hcut.
    rewrite (extractRemoteURL_fallback ctx r seg rest true Hr Hns Hcut).
    cbn [negb orb]. split.
    + intros Hdot. apply IndexRune_ge_1 in Hdot. rewrite Hdot.
      unfold WithName. split; intros ->; reflexivity.
    + intros Hdot.
      destruct (strings.IndexRune seg "." <? 1) eqn:Hlt; [reflexivity|].
      apply IndexRune_ge_1 in Hlt. contradiction.
  - intros Hno.
    rewrite (extractRemoteURL_fallback ctx r _ _ _ Hr Hns (Cut_not_found _ Hno)).
    reflexivity.
Qed.

(** C10: in namespace mode, for a request whose [ns] parameter is not
    empty, that value is the upstream host as it stands, with or without a
    period in it, and resolution succeeds whenever the repository name of
    the request parses. *)
Theorem explicit_namespace_verbatim ctx r ns :
  GetRequest ctx = inr r -> Values_Get (Query r) "ns" = ns -> ns <> "" ->
  name_ok (GetStringValue ctx "vars.name") = true ->
  extractRemoteURL ctx =
  inr (mkURL "https" ns "", mkNamed (GetStringValue ctx "vars.name")).
Proof.
  intros Hr <- Hns Hok.
  rewrite (extractRemoteURL_explicit ctx r Hr Hns).
  unfold WithName. now rewrite Hok.
Qed.

(** Whatever the resolver returns has scheme [https] and an empty path. *)
Lemma extractRemoteURL_https ctx u n :
  extractRemoteURL ctx = inr (u, n) -> Scheme u = "https" /\ Path u = "".
Proof.
  unfold extractRemoteURL. destruct (GetRequest ctx) as [e|r]; [discriminate|].
  destruct (String.eqb _ _).
  - destruct (strings.Cut _ _) as [[seg rest] found].
    destruct (negb found || _); [discriminate|].
    destruct (WithName rest); [discriminate|]. intros [= <- <-]. now split.
  - destruct (WithName _); [discriminate|]. intros [= <- <-]. now split.
Qed.

End ResolverFacts.

Lemma fallback_resolution_witness :
  @extractRemoteURL sample_grammar
    (request_for "registry-1.docker.io/library/redis") =
  inr (mkURL "https" "registry-1.docker.io" "", mkNamed "library/redis").
Proof.
  assert (Hr : GetRequest (request_for "registry-1.docker.io/library/redis")
               = inr (mkRequest ∅)) by reflexivity.
  assert (Hns : Values_Get (Query (mkRequest ∅)) "ns" = "") by reflexivity.
  destruct (@fallback_resolution sample_grammar _ _ Hr Hns) as [Hsplit _].
  destruct (Hsplit "registry-1.docker.io" "library/redis") as [Hdot _].
  - vm_compute. reflexivity.
  - apply IndexByte_absent. reflexivity.
  - destruct Hdot as [Hok _].
    + apply IndexRune_ge_1. reflexivity.
    + apply Hok. reflexivity.
Defined.

(** C1 as the specification words it fails twice.  [.a.b/foo] splits and its
    first segment has a period at index 2, yet resolution fails, because
    the segment's first period leads it.  [a.b/] splits and its first
    segment has its period at index 1, yet no origin is resolved and the
    failure is not the invalid-namespace error, because the remainder is not
    a repository name. *)
Lemma fallback_resolution_as_stated_fails :
  (strings.Cut (GetStringValue (request_for ".a.b/foo") "vars.name") "/"
     = (".a.b", "foo", true)
   /\ occurs_at "." ".a.b" 2
   /\ @extractRemoteURL sample_grammar (request_for ".a.b/foo")
      = inl ErrInvalidNamespace)
  /\
  (strings.Cut (GetStringValue (request_for "a.b/") "vars.name") "/"
     = ("a.b", "", true)
   /\ occurs_at "." "a.b" 1
   /\ @extractRemoteURL sample_grammar (request_for "a.b/")
      = inl (ErrNameParse "")).
Proof. repeat split; vm_compute; reflexivity. Qed.

Lemma explicit_namespace_verbatim_witness :
  @extractRemoteURL sample_grammar (request_in "localhost" "library/redis") =
  inr (mkURL "https" "localhost" "", mkNamed "library/redis").
Proof.
  apply (@explicit_namespace_verbatim sample_grammar
           (request_in "localhost" "library/redis")
           (mkRequest {["ns" := ["localhost"]]}) "localhost").
  - reflexivity.
  - vm_compute. reflexivity.
  - discriminate.
  - vm_compute. reflexivity.
Defined.

(** ** Running programs *)

Lemma run_Ret {S R : Type} (h : handler S) (r : R) (s : S) :
  run h (Ret r) s = (r, s, []).
Proof. reflexivity. Qed.

Lemma run_Call {S R X : Type} (h : handler S) (c : call X) (k : X -> Prog R) (s : S) :
  run h (Call c k) s =
  let '(x, s1) := h _ c s in
  let '(r, s2, t) := run h (k x) s1 in
  (r, s2, Entry c x :: t).
Proof. reflexivity. Qed.

(** One step of a run described by [H]: name what the handler answers,
    split on it and go on. *)
Ltac run_step H :=
  match type of H with
  | context [run ?h (Call ?c ?k) ?s] =>
      rewrite (run_Call h c k s) in H;
      let x := fresh "x" in
      let s' := fresh "s" in
      let E := fresh "E" in
      destruct (h _ c s) as [x s'] eqn:E; cbn beta iota in H;
      try destruct x
  | context [run ?h (Ret ?r) ?s] =>
      rewrite (run_Ret h r s) in H; cbn beta iota in H
  end.

Ltac run_all_steps H := repeat run_step H.

(** ** The eviction callbacks *)

Section Eviction.
Context {S : Type} (h : handler S).

(** Every run of the blob callback on a canonical reference: the lookup
    fails; or the deletion fails; or the vacuum fails; or all succeed. *)
Lemma blob_expire_steps (s : S) (r : Named) (dgst : Digest) :
  let o := run h (onBlobExpire (CanonicalRef r dgst)) s in
  (exists err, result o = Some err /\
               trace o = [Entry (Namespace_Repository r) (inl err)]) \/
  (exists repo blobs,
      let looked := [Entry (Namespace_Repository r) (inr repo);
                     Entry (Repository_Blobs repo) blobs] in
      (exists err, result o = Some err /\
         trace o = looked ++ [Entry (BlobStore_Delete blobs dgst) (Some err)])%list \/
      (exists err, result o = Some err /\
         trace o = looked ++ [Entry (BlobStore_Delete blobs dgst) None;
                              Entry (Vacuum_RemoveBlob (Digest_String dgst)) (Some err)])%list \/
      (result o = None /\
         trace o = looked ++ [Entry (BlobStore_Delete blobs dgst) None;
                              Entry (Vacuum_RemoveBlob (Digest_String dgst)) None])%list).
Proof.
  intros o. remember o as o' eqn:Ho. subst o.
  unfold onBlobExpire in Ho. cbn [asCanonical] in Ho.
  run_all_steps Ho; subst o'.
  - left. eexists. split; reflexivity.
  - right. do 2 eexists. left. eexists. split; reflexivity.
  - right. do 2 eexists. right. left. eexists. split; reflexivity.
  - right. do 2 eexists. right. right. split; reflexivity.
Qed.

(** Every run of the manifest callback on a canonical reference. *)
Lemma manifest_expire_steps (s : S) (r : Named) (dgst : Digest) :
  let o := run h (onManifestExpire (CanonicalRef r dgst)) s in
  (exists err, result o = Some err /\
               trace o = [Entry (Namespace_Repository r) (inl err)]) \/
  (exists repo,
      (exists err, result o = Some err /\
         trace o = [Entry (Namespace_Repository r) (inr repo);
                    Entry (Repository_Manifests repo []) (inl err)]) \/
      (exists ms res, result o = res /\
         trace o = [Entry (Namespace_Repository r) (inr repo);
                    Entry (Repository_Manifests repo []) (inr ms);
                    Entry (ManifestService_Delete ms dgst) res])).
Proof.
  intros o. remember o as o' eqn:Ho. subst o.
  unfold onManifestExpire in Ho. cbn [asCanonical] in Ho.
  run_all_steps Ho; subst o'.
  - left. eexists. split; reflexivity.
  - right. eexists. left. eexists. split; reflexivity.
  - right. eexists. right. do 2 eexists. split; reflexivity.
  - right. eexists. right. do 2 eexists. split; reflexivity.
Qed.

(** C5: on a canonical reference the blob callback looks the owning
    repository up, deletes the blob by digest through that repository's
    blob accessor and only then asks the vacuum to remove the digest.  It
    succeeds only if both deletions succeed; and if the deletion through
    the repository fails, the vacuum is not invoked. *)
Theorem blob_expire_delete_then_vacuum (s : S) (r : Named) (dgst : Digest) :
  let o := run h (onBlobExpire (CanonicalRef r dgst)) s in
  (result o = None ->
   exists repo blobs,
     trace o = [Entry (Namespace_Repository r) (inr repo);
                Entry (Repository_Blobs repo) blobs;
                Entry (BlobStore_Delete blobs dgst) None;
                Entry (Vacuum_RemoveBlob (Digest_String dgst)) None]) /\
  (forall d err, (d, Some err) ∈ deletes (trace o) ->
                 vacuums (trace o) = [] /\ result o = Some err) /\
  (vacuums (trace o) <> [] ->
   exists repo blobs res,
     result o = res /\
     trace o = [Entry (Namespace_Repository r) (inr repo);
                Entry (Repository_Blobs repo) blobs;
                Entry (BlobStore_Delete blobs dgst) None;
                Entry (Vacuum_RemoveBlob (Digest_String dgst)) res]) /\
  (deletes (trace o) = [] ->
   exists err, result o = Some err /\
               trace o = [Entry (Namespace_Repository r) (inl err)]).
Proof.
  intros o.
  destruct (blob_expire_steps s r dgst)
    as [(err & Hres & Htr)
       | (repo & blobs & [(err & Hres & Htr) | [(err & Hres & Htr) | [Hres Htr]]])];
    fold o in Hres, Htr; rewrite Hres, Htr; cbn;
    (split; [|split; [|split]]).
  all: try discriminate.
  all: try (intros d e Hin; first
              [ now apply elem_of_nil in Hin
              | apply list_elem_of_singleton in Hin; split; congruence ]).
  all: try (intros Hv; now contradiction Hv).
  all: try (intros _; eauto 6).
Qed.

(** C2, as the code has it: in both callbacks, whatever error the
    backend's delete reports, not-found included, ends the callback with
    that very error; the blob callback then leaves the vacuum alone. *)
Theorem expire_delete_error_is_returned (s : S) (ref : Reference)
    (d : Digest) (err : error) :
  ((d, Some err) ∈ deletes (trace (run h (onBlobExpire ref) s)) ->
   result (run h (onBlobExpire ref) s) = Some err /\
   vacuums (trace (run h (onBlobExpire ref) s)) = []) /\
  ((d, Some err) ∈ deletes (trace (run h (onManifestExpire ref) s)) ->
   result (run h (onManifestExpire ref) s) = Some err).
Proof.
  destruct ref as [r dgst | r tag]; [|split; cbn; intros Hin; now apply elem_of_nil in Hin].
  split.
  - destruct (blob_expire_steps s r dgst)
      as [(e & Hres & Htr)
         | (repo & blobs & [(e & Hres & Htr) | [(e & Hres & Htr) | [Hres Htr]]])];
      rewrite Hres, Htr; cbn; intros Hin.
    + now apply elem_of_nil in Hin.
    + apply list_elem_of_singleton in Hin. split; congruence.
    + apply list_elem_of_singleton in Hin. congruence.
    + apply list_elem_of_singleton in Hin. congruence.
  - destruct (manifest_expire_steps s r dgst)
      as [(e & Hres & Htr) | (repo & [(e & Hres & Htr) | (ms & res & Hres & Htr)])];
      rewrite Hres, Htr; cbn; intros Hin.
    + now apply elem_of_nil in Hin.
    + now apply elem_of_nil in Hin.
    + apply list_elem_of_singleton in Hin. congruence.
Qed.

(** C6: on a reference that is not canonical both callbacks fail with the
    unexpected-reference-type error and call nobody: no repository is
    looked up, nothing is deleted, the vacuum is not invoked. *)
Theorem noncanonical_reference_rejected (s : S) (ref : Reference) :
  asCanonical ref = None ->
  run h (onBlobExpire ref) s = (Some (ErrUnexpectedReferenceType ref), s, []) /\
  run h (onManifestExpire ref) s = (Some (ErrUnexpectedReferenceType ref), s, []).
Proof.
  intros Hnc. unfold onBlobExpire, onManifestExpire. rewrite Hnc.
  split; reflexivity.
Qed.

End Eviction.

Lemma blob_expire_delete_then_vacuum_witness :
  let o := run (sim bearer_upstream)
             (onBlobExpire (CanonicalRef (mkNamed "library/redis") "sha256:00"))
             (world_with "sha256:00") in
  result o = None /\
  deletes (trace o) = [("sha256:00", None)] /\
  vacuums (trace o) = [("sha256:00", None)].
Proof.
  intros o.
  destruct (blob_expire_delete_then_vacuum (sim bearer_upstream)
              (world_with "sha256:00") (mkNamed "library/redis") "sha256:00")
    as (Hok & _).
  fold o in Hok. assert (Hres : result o = None) by (vm_compute; reflexivity).
  destruct (Hok Hres) as (repo & blobs & Htr).
  split; [exact Hres|]. rewrite Htr. split; reflexivity.
Defined.

(** C2 as the specification words it fails: when the digest is already gone
    the backend answers not-found, and both callbacks hand that error to the
    scheduler instead of succeeding.  Expiring the same blob twice succeeds
    the first time and fails the second. *)
Lemma expire_not_found_is_not_swallowed :
  let ref := CanonicalRef (mkNamed "library/redis") "sha256:00" in
  (deletes (trace (run (sim bearer_upstream) (onBlobExpire ref) empty_world))
     = [("sha256:00", Some ErrNotFound)]
   /\ result (run (sim bearer_upstream) (onBlobExpire ref) empty_world)
      = Some ErrNotFound)
  /\
  (deletes (trace (run (sim bearer_upstream) (onManifestExpire ref) empty_world))
     = [("sha256:00", Some ErrNotFound)]
   /\ result (run (sim bearer_upstream) (onManifestExpire ref) empty_world)
      = Some ErrNotFound)
  /\
  result (run_all (sim bearer_upstream) [onBlobExpire ref; onBlobExpire ref]
            (world_with "sha256:00"))
    = [None; Some ErrNotFound].
Proof. repeat split; vm_compute; reflexivity. Qed.

Lemma expire_delete_error_is_returned_witness :
  let ref := CanonicalRef (mkNamed "library/redis") "sha256:00" in
  (result (run (sim bearer_upstream) (onBlobExpire ref) empty_world)
     = Some ErrNotFound /\
   vacuums (trace (run (sim bearer_upstream) (onBlobExpire ref) empty_world)) = [])
  /\ result (run (sim bearer_upstream) (onManifestExpire ref) empty_world)
     = Some ErrNotFound.
Proof.
  intros ref.
  destruct (expire_delete_error_is_returned (sim bearer_upstream) empty_world
              ref "sha256:00" ErrNotFound) as [Hblob Hmanifest].
  split.
  - apply Hblob. vm_compute. apply list_elem_of_singleton. reflexivity.
  - apply Hmanifest. vm_compute. apply list_elem_of_singleton. reflexivity.
Defined.

Lemma noncanonical_reference_rejected_witness :
  let ref := TaggedRef (mkNamed "library/redis") "latest" in
  run (sim bearer_upstream) (onBlobExpire ref) (world_with "sha256:00")
    = (Some (ErrUnexpectedReferenceType ref), world_with "sha256:00", []) /\
  run (sim bearer_upstream) (onManifestExpire ref) (world_with "sha256:00")
    = (Some (ErrUnexpectedReferenceType ref), world_with "sha256:00", []).
Proof.
  intros ref.
  apply (noncanonical_reference_rejected (sim bearer_upstream)
           (world_with "sha256:00") ref).
  reflexivity.
Defined.

(** ** The auth challenger *)

Lemma probes_app (t1 t2 : list entry) :
  probes (t1 ++ t2)%list = (probes t1 + probes t2)%nat.
Proof. unfold probes. now rewrite List.filter_app, length_app. Qed.

Section ChallengerFacts.
Context `{NameGrammar} {S : Type} (h : handler S).

(** A call that finds a challenge cached asks the manager and nobody
    else. *)
Lemma cache_hit (r : remoteAuthChallenger) (ctx : Context) (u : URL) (s : S) :
  challengedURL r ctx = inr u ->
  holds_challenge h (cm r) (with_Path u "/v2/") s ->
  exists chs,
    run h (tryEstablishChallenges r ctx) s =
    (None, snd (h _ (Manager_GetChallenges (cm r) (with_Path u "/v2/")) s),
     [Entry (Manager_GetChallenges (cm r) (with_Path u "/v2/")) (inr chs)]).
Proof.
  intros Hu (ch & chs & Hheld). exists (ch :: chs).
  unfold tryEstablishChallenges. rewrite Hu, run_Call.
  destruct (h _ _ s) as [x s1]. cbn in Hheld. subst x. reflexivity.
Qed.

(** A call makes at most one probe; one that succeeds without having
    found a challenge cached has made exactly one. *)
Lemma first_call_probes (r : remoteAuthChallenger) (ctx : Context) (u : URL) (s : S) :
  challengedURL r ctx = inr u ->
  let o := run h (tryEstablishChallenges r ctx) s in
  (probes (trace o) <= 1)%nat /\
  (result o = None ->
   ~ holds_challenge h (cm r) (with_Path u "/v2/") s ->
   probes (trace o) = 1%nat).
Proof.
  intros Hu o. remember o as o' eqn:Ho. subst o.
  unfold tryEstablishChallenges in Ho. rewrite Hu in Ho.
  rewrite run_Call in Ho.
  destruct (h _ (Manager_GetChallenges (cm r) (with_Path u "/v2/")) s)
    as [[err | [|ch chs]] s1] eqn:E; cbn beta iota in Ho.
  all: cbn [length Nat.ltb Nat.leb] in Ho; run_all_steps Ho; subst o'.
  - split; [cbn; lia | discriminate].
  - split; [cbn; lia | discriminate].
  - split; [cbn; lia | reflexivity].
  - split; [cbn; lia|].
    intros _ Hno. exfalso. apply Hno. exists ch, chs. now rewrite E.
Qed.

(** Calls that follow one another while the manager holds a challenge
    for their endpoint all succeed without a probe. *)
Lemma later_calls_hit (r : remoteAuthChallenger) (u : URL) (ctxs : list Context) :
  reads_keep h (cm r) (with_Path u "/v2/") ->
  Forall (fun c => challengedURL r c = inr u) ctxs ->
  forall s, holds_challenge h (cm r) (with_Path u "/v2/") s ->
    let later := run_all h (map (tryEstablishChallenges r) ctxs) s in
    Forall (eq None) (result later) /\ probes (trace later) = 0%nat.
Proof.
  intros Hkeep Hall. induction Hall as [|c ctxs Hc Hall IH]; intros s Hheld.
  - split; [constructor | reflexivity].
  - destruct (cache_hit r c u s Hc Hheld) as [chs Hrun].
    cbn [map run_all]. rewrite Hrun.
    specialize (IH _ (Hkeep s Hheld)). cbv zeta in IH.
    destruct (run_all h _ _) as [[rs s2] t2].
    unfold result, trace in *. cbn [fst snd] in *.
    destruct IH as [Hrs Ht2]. split; [now constructor|].
    rewrite probes_app, Ht2. reflexivity.
Qed.

(** C4: once a call of [tryEstablishChallenges] has succeeded and the
    challenge manager holds at least one challenge for the origin's [/v2/]
    URL, the next call for that origin succeeds at once without a probe,
    and so does every later one, the manager's reads keeping what it
    holds.  The call that established the challenges and the one after it
    make exactly one probe between them. *)
Theorem challenges_established_once
    (r : remoteAuthChallenger) (ctx : Context) (u : URL) (s0 : S) :
  challengedURL r ctx = inr u ->
  let endpoint := with_Path u "/v2/" in
  let first := run h (tryEstablishChallenges r ctx) s0 in
  result first = None ->
  holds_challenge h (cm r) endpoint (final first) ->
  (let second := run h (tryEstablishChallenges r ctx) (final first) in
   result second = None /\ probes (trace second) = 0%nat /\
   (probes (trace first ++ trace second)%list <= 1)%nat /\
   (~ holds_challenge h (cm r) endpoint s0 ->
    probes (trace first ++ trace second)%list = 1%nat)) /\
  (reads_keep h (cm r) endpoint ->
   forall ctxs, Forall (fun c => challengedURL r c = inr u) ctxs ->
     let later :=
       run_all h (map (tryEstablishChallenges r) ctxs) (final first) in
     Forall (eq None) (result later) /\ probes (trace later) = 0%nat).
Proof.
  intros Hu endpoint first Hok Hheld. split.
  - destruct (cache_hit r ctx u (final first) Hu Hheld) as [chs Hrun].
    destruct (first_call_probes r ctx u s0 Hu) as [Hle Hone].
    fold first in Hle, Hone.
    cbv zeta. rewrite Hrun. unfold result, trace in *. cbn [fst snd].
    rewrite probes_app. change (probes [_]) with 0%nat.
    split; [reflexivity|]. split; [reflexivity|]. split; [lia|].
    intros Hcold. rewrite (Hone Hok Hcold). reflexivity.
  - intros Hkeep ctxs Hall. now apply (later_calls_hit r u ctxs).
Qed.

End ChallengerFacts.

(** The simulated manager only reads when it is asked. *)
Lemma sim_reads_keep upstream c endpoint : reads_keep (sim upstream) c endpoint.
Proof. intros s Hheld. exact Hheld. Qed.

Lemma challenges_established_once_witness :
  let r := sample_challenger false in
  let ctx := request_for "library/redis" in
  let first :=
    run (sim bearer_upstream) (@tryEstablishChallenges sample_grammar r ctx)
      empty_world in
  let second :=
    run (sim bearer_upstream) (@tryEstablishChallenges sample_grammar r ctx)
      (final first) in
  let later :=
    run_all (sim bearer_upstream)
      (map (@tryEstablishChallenges sample_grammar r) [ctx; ctx; ctx])
      (final first) in
  (result second = None /\ probes (trace second) = 0%nat /\
   probes (trace first ++ trace second)%list = 1%nat) /\
  (Forall (eq None) (result later) /\ probes (trace later) = 0%nat).
Proof.
  intros r ctx first second later.
  destruct (@challenges_established_once sample_grammar World (sim bearer_upstream)
              r ctx (mkURL "https" "registry-1.docker.io" "") empty_world)
    as [Hsecond Hlater].
  - reflexivity.
  - vm_compute. reflexivity.
  - exists (mkChallenge "bearer"), []. vm_compute. reflexivity.
  - split.
    + destruct Hsecond as (Hres & Hnone & _ & Hone).
      split; [exact Hres|]. split; [exact Hnone|].
      apply Hone. intros (ch & chs & Hheld). vm_compute in Hheld. discriminate.
    + apply Hlater; [apply sim_reads_keep|].
      repeat constructor.
Defined.

(** An upstream that asks for no authentication leaves the manager without
    a challenge: the call succeeds, and so does the next, each with a probe
    of its own. *)
Example open_upstream_is_probed_again :
  let r := sample_challenger false in
  let ctx := request_for "library/redis" in
  let both :=
    run_all (sim open_upstream)
      [@tryEstablishChallenges sample_grammar r ctx;
       @tryEstablishChallenges sample_grammar r ctx] empty_world in
  result both = [None; None] /\ probes (trace both) = 2%nat.
Proof. split; vm_compute; reflexivity. Qed.

(** ** The proxy registry *)

Section RegistryFacts.
Context `{NameGrammar} {S : Type} (h : handler S).

Lemma resolveNames_static pr ctx name :
  enableNamespaces pr = false ->
  resolveNames pr ctx name = inr (name, remoteURL pr, name).
Proof. intros Hoff. unfold resolveNames. now rewrite Hoff. Qed.

Lemma resolveNames_namespaced pr ctx name localName u rname :
  enableNamespaces pr = true ->
  resolveNames pr ctx name = inr (localName, u, rname) ->
  extractRemoteURL ctx = inr (u, rname) /\
  localName = mkNamed (Host u +:+ "/" +:+ Name rname).
Proof.
  intros Hon. unfold resolveNames. rewrite Hon.
  destruct (extractRemoteURL ctx) as [err | [u' rname']]; [discriminate|].
  unfold WithName. destruct (name_ok _); [|discriminate].
  intros [= <- <- <-]. now split.
Qed.

(** A run of [Repository] whose names are resolved: the local registry is
    asked for the local name first; a remote client, if one is opened, is
    for the remote name at the remote URL; and the repository handed out
    at the end carries the local name in its stores and the remote name as
    its own. *)
Lemma Repository_steps pr ctx name localName u rname (s : S) :
  resolveNames pr ctx name = inr (localName, u, rname) ->
  let o := run h (Repository pr ctx name) s in
  local_opens (trace o) = [localName] /\
  (remote_opens (trace o) = [] \/ remote_opens (trace o) = [(rname, u)]) /\
  (forall repo, result o = inr repo ->
     remote_opens (trace o) = [(rname, u)] /\
     proxiedRepository_.Named repo = rname /\
     bs_repositoryName (blobStore repo) = localName /\
     ms_repositoryName (manifests repo) = localName).
Proof.
  intros Hnames o. remember o as o' eqn:Ho. subst o.
  unfold Repository in Ho. rewrite Hnames in Ho.
  run_all_steps Ho; subst o'; cbn.
  all: split; [reflexivity|]; split; [auto|]; intros repo; try discriminate.
  intros [= <-]. cbn. auto.
Qed.

Lemma Repository_unresolved pr ctx name err (s : S) :
  resolveNames pr ctx name = inl err ->
  run h (Repository pr ctx name) s = (inl err, s, []).
Proof. intros Hnames. unfold Repository. now rewrite Hnames. Qed.

(** With namespaces disabled the request context plays no part in what
    [Repository] asks of its collaborators. *)
Lemma Repository_static_context_free pr ctx ctx' requested (s : S) :
  enableNamespaces pr = false ->
  trace (run h (Repository pr ctx' requested) s)
    = trace (run h (Repository pr ctx requested) s) /\
  final (run h (Repository pr ctx' requested) s)
    = final (run h (Repository pr ctx requested) s).
Proof.
  intros Hoff. unfold Repository. rewrite !(resolveNames_static _ _ _ Hoff).
  repeat (rewrite ?run_Call, ?run_Ret;
          match goal with
          | |- context [h ?X ?c ?s] =>
              let x := fresh "x" in
              destruct (h X c s) as [x ?]; cbn beta iota; try destruct x
          end).
  all: rewrite ?run_Ret; split; reflexivity.
Qed.

(** C7: with namespace mode disabled, whatever the request context, the
    remote origin of [Repository] is the configured remote URL and the
    local name is the requested name: the local registry is asked for the
    requested name, a remote client is only ever opened for the requested
    name at the configured URL, and the stores of the repository handed
    out carry the requested name.  The request context is not consulted:
    any other context leads to the same calls. *)
Theorem static_origin_ignores_request pr ctx requested (s : S) :
  enableNamespaces pr = false ->
  let o := run h (Repository pr ctx requested) s in
  resolveNames pr ctx requested = inr (requested, remoteURL pr, requested) /\
  local_opens (trace o) = [requested] /\
  (forall n u, (n, u) ∈ remote_opens (trace o) ->
               n = requested /\ u = remoteURL pr) /\
  (forall repo, result o = inr repo ->
     remote_opens (trace o) = [(requested, remoteURL pr)] /\
     bs_repositoryName (blobStore repo) = requested /\
     ms_repositoryName (manifests repo) = requested) /\
  (forall ctx',
     trace (run h (Repository pr ctx' requested) s) = trace o /\
     final (run h (Repository pr ctx' requested) s) = final o).
Proof.
  intros Hoff o. pose proof (resolveNames_static pr ctx requested Hoff) as Hnames.
  destruct (Repository_steps pr ctx requested _ _ _ s Hnames)
    as (Hlocal & Hremote & Hrepo). fold o in Hlocal, Hremote, Hrepo.
  split; [exact Hnames|]. split; [exact Hlocal|]. split; [|split].
  - intros n u Hin. destruct Hremote as [Hremote | Hremote];
      rewrite Hremote in Hin.
    + now apply elem_of_nil in Hin.
    + apply list_elem_of_singleton in Hin. injection Hin as -> ->. now split.
  - intros repo Hok. destruct (Hrepo repo Hok) as (? & _ & ? & ?). auto.
  - intros ctx'. now apply Repository_static_context_free.
Qed.

(** C8, as the code has it: a call of [Repository] that succeeds in
    namespace mode has resolved an origin of scheme [https] and a remote
    repository name from the request context; the local registry is asked
    for the composite name, host slash remote name, and the remote client
    is opened at the resolved origin for the remote repository name the
    resolver returned. *)
Theorem namespaced_repository_wiring pr ctx requested (s : S) repo :
  enableNamespaces pr = true ->
  result (run h (Repository pr ctx requested) s) = inr repo ->
  exists u rname,
    extractRemoteURL ctx = inr (u, rname) /\
    Scheme u = "https" /\
    local_opens (trace (run h (Repository pr ctx requested) s))
      = [mkNamed (Host u +:+ "/" +:+ Name rname)] /\
    remote_opens (trace (run h (Repository pr ctx requested) s))
      = [(rname, u)].
Proof.
  intros Hon Hok.
  destruct (resolveNames pr ctx requested) as [err | [[localName u] rname]] eqn:Hnames.
  - rewrite (Repository_unresolved pr ctx requested err s Hnames) in Hok.
    discriminate.
  - destruct (resolveNames_namespaced _ _ _ _ _ _ Hon Hnames) as [Hextract ->].
    destruct (Repository_steps pr ctx requested _ _ _ s Hnames)
      as (Hlocal & _ & Hrepo).
    destruct (Hrepo repo Hok) as (Hremote & _).
    exists u, rname. split; [exact Hextract|].
    split; [apply (extractRemoteURL_https ctx u rname Hextract)|].
    now split.
Qed.

(** C3, as the code has it: the repository a successful [Repository] call
    hands out answers [Named()] with the name its remote client was opened
    for.  With namespaces disabled that is the requested name, which is
    the local name as well.  In namespace mode it is the remote repository
    name the resolver returned, while the composite local name, host slash
    remote name, is the one the blob and manifest stores carry. *)
Theorem proxied_repository_named pr ctx requested (s : S) repo :
  result (run h (Repository pr ctx requested) s) = inr repo ->
  (enableNamespaces pr = false ->
   proxiedRepository_.Named repo = requested /\
   bs_repositoryName (blobStore repo) = requested /\
   ms_repositoryName (manifests repo) = requested) /\
  (enableNamespaces pr = true ->
   exists u rname,
     extractRemoteURL ctx = inr (u, rname) /\
     proxiedRepository_.Named repo = rname /\
     bs_repositoryName (blobStore repo) = mkNamed (Host u +:+ "/" +:+ Name rname) /\
     ms_repositoryName (manifests repo) = mkNamed (Host u +:+ "/" +:+ Name rname)).
Proof.
  intros Hok. split; intros Hmode.
  - pose proof (resolveNames_static pr ctx requested Hmode) as Hnames.
    destruct (Repository_steps pr ctx requested _ _ _ s Hnames) as (_ & _ & Hrepo).
    destruct (Hrepo repo Hok) as (_ & ? & ? & ?). auto.
  - destruct (resolveNames pr ctx requested) as [err | [[localName u] rname]] eqn:Hnames.
    + rewrite (Repository_unresolved pr ctx requested err s Hnames) in Hok.
      discriminate.
    + destruct (resolveNames_namespaced _ _ _ _ _ _ Hmode Hnames) as [Hextract ->].
      destruct (Repository_steps pr ctx requested _ _ _ s Hnames) as (_ & _ & Hrepo).
      destruct (Hrepo repo Hok) as (_ & ? & ? & ?).
      exists u, rname. auto.
Qed.

End RegistryFacts.

(** C9: whatever the context and whatever the options, [Manifests] answers
    with the manifest store the repository was built with and no error, the
    options playing no part; [Blobs] and [Tags] answer with the stores the
    repository was built with as well. *)
Theorem accessors_return_prebuilt_stores
    (pr : proxiedRepository) (ctx : Context) (options : list ManifestServiceOption) :
  proxiedRepository_.Manifests pr ctx options = inr (manifests pr) /\
  proxiedRepository_.Manifests pr ctx options = proxiedRepository_.Manifests pr ctx [] /\
  proxiedRepository_.Blobs pr ctx = blobStore pr /\
  proxiedRepository_.Tags pr ctx = tags pr.
Proof. repeat split. Qed.

Lemma static_origin_ignores_request_witness :
  let pr := sample_registry false in
  let requested := mkNamed "library/redis" in
  let o := run (sim bearer_upstream)
             (@Repository sample_grammar pr
                (request_in "other.example.com" "library/redis") requested)
             empty_world in
  local_opens (trace o) = [requested] /\
  remote_opens (trace o) = [(requested, mkURL "https" "registry-1.docker.io" "")] /\
  trace (run (sim bearer_upstream)
           (@Repository sample_grammar pr (mkContext None ∅) requested)
           empty_world) = trace o.
Proof.
  intros pr requested o.
  destruct (@static_origin_ignores_request sample_grammar World (sim bearer_upstream)
              pr (request_in "other.example.com" "library/redis") requested
              empty_world eq_refl)
    as (_ & Hlocal & _ & Hrepo & Hctx).
  fold o in Hlocal, Hrepo, Hctx.
  split; [exact Hlocal|]. split.
  - assert (Hok : exists repo, result o = inr repo)
      by (eexists; vm_compute; reflexivity).
    destruct Hok as [repo Hok]. now destruct (Hrepo repo Hok).
  - now destruct (Hctx (mkContext None ∅)).
Defined.

(** C8 as the specification words it fails on the fallback path: for the
    request name [registry-1.docker.io/library/redis] the remote client is
    opened for [library/redis], not for the name that was requested. *)
Lemma remote_client_not_opened_for_requested_name :
  let requested := mkNamed "registry-1.docker.io/library/redis" in
  let o := run (sim bearer_upstream)
             (@Repository sample_grammar (sample_registry true)
                (request_for "registry-1.docker.io/library/redis") requested)
             empty_world in
  (exists repo, result o = inr repo) /\
  remote_opens (trace o)
    = [(mkNamed "library/redis", mkURL "https" "registry-1.docker.io" "")] /\
  mkNamed "library/redis" <> requested.
Proof.
  intros requested o. split; [|split].
  - eexists. vm_compute. reflexivity.
  - vm_compute. reflexivity.
  - discriminate.
Qed.

Lemma namespaced_repository_wiring_witness :
  let o := run (sim bearer_upstream)
             (@Repository sample_grammar (sample_registry true)
                (request_in "h.example.com" "library/redis")
                (mkNamed "library/redis"))
             empty_world in
  exists u rname,
    @extractRemoteURL sample_grammar (request_in "h.example.com" "library/redis")
      = inr (u, rname) /\
    Scheme u = "https" /\
    local_opens (trace o) = [mkNamed (Host u +:+ "/" +:+ Name rname)] /\
    remote_opens (trace o) = [(rname, u)].
Proof.
  intros o.
  assert (Hok : exists repo, result o = inr repo)
    by (eexists; vm_compute; reflexivity).
  destruct Hok as [repo Hok].
  exact (@namespaced_repository_wiring sample_grammar World (sim bearer_upstream)
           (sample_registry true) (request_in "h.example.com" "library/redis")
           (mkNamed "library/redis") empty_world repo eq_refl Hok).
Defined.

(** C3 as the specification words it fails in namespace mode: for the
    request name [registry-1.docker.io/library/redis] the stores carry the
    composite local name, and [Named()] answers [library/redis]. *)
Lemma named_is_not_the_local_name :
  let requested := mkNamed "registry-1.docker.io/library/redis" in
  let o := run (sim bearer_upstream)
             (@Repository sample_grammar (sample_registry true)
                (request_for "registry-1.docker.io/library/redis") requested)
             empty_world in
  exists repo,
    result o = inr repo /\
    bs_repositoryName (blobStore repo) = mkNamed "registry-1.docker.io/library/redis" /\
    proxiedRepository_.Named repo = mkNamed "library/redis" /\
    proxiedRepository_.Named repo <> bs_repositoryName (blobStore repo).
Proof.
  intros requested o. eexists. split; [vm_compute; reflexivity|].
  split; [reflexivity|]. split; [reflexivity|]. discriminate.
Qed.

Lemma proxied_repository_named_witness :
  let o := run (sim bearer_upstream)
             (@Repository sample_grammar (sample_registry true)
                (request_for "registry-1.docker.io/library/redis")
                (mkNamed "registry-1.docker.io/library/redis"))
             empty_world in
  exists repo u rname,
    result o = inr repo /\
    @extractRemoteURL sample_grammar
      (request_for "registry-1.docker.io/library/redis") = inr (u, rname) /\
    proxiedRepository_.Named repo = rname /\
    bs_repositoryName (blobStore repo) = mkNamed (Host u +:+ "/" +:+ Name rname).
Proof.
  intros o.
  assert (Hok : exists repo, result o = inr repo)
    by (eexists; vm_compute; reflexivity).
  destruct Hok as [repo Hok].
  destruct (@proxied_repository_named sample_grammar World (sim bearer_upstream)
              (sample_registry true)
              (request_for "registry-1.docker.io/library/redis")
              (mkNamed "registry-1.docker.io/library/redis") empty_world repo Hok)
    as [_ Hon].
  destruct (Hon eq_refl) as (u & rname & Hextract & Hnamed & Hblob & _).
  exists repo, u, rname. auto.
Defined.

(** * Further properties *)

(** ** The eviction callbacks *)

Section EvictionMore.
Context {S : Type} (h : handler S).

(** X1: on a canonical reference the manifest callback never turns to the
    vacuum; it asks for the manifest accessor without options; whatever it
    deletes is the digest of the reference, and the backend's answer to that
    deletion is the callback's result; it succeeds only by deleting. *)
Theorem manifest_expire_never_vacuums (s : S) (r : Named) (dgst : Digest) :
  let o := run h (onManifestExpire (CanonicalRef r dgst)) s in
  vacuums (trace o) = [] /\
  (forall repo options,
      (repo, options) ∈ manifest_opens (trace o) -> options = []) /\
  (forall d res, (d, res) ∈ deletes (trace o) -> d = dgst /\ result o = res) /\
  (result o = None -> deletes (trace o) = [(dgst, None)]).
Proof.
  intros o.
  destruct (manifest_expire_steps h s r dgst)
    as [(e & Hres & Htr) | (repo & [(e & Hres & Htr) | (ms & res & Hres & Htr)])];
    fold o in Hres, Htr; rewrite Hres, Htr; cbn;
    (split; [reflexivity|]; split; [|split]).
  all: try discriminate.
  all: try (intros ? ? Hin; first
              [ now apply elem_of_nil in Hin
              | apply list_elem_of_singleton in Hin; now injection Hin as -> -> ]).
  intros ->. reflexivity.
Qed.

(** X2: both callbacks look up the repository the reference names, and that one
    only; when the lookup fails, its error is the callback's result and
    nothing is deleted, through the repository or by the vacuum. *)
Theorem expire_looks_up_the_named_repository (s : S) (r : Named) (dgst : Digest) :
  let blob := run h (onBlobExpire (CanonicalRef r dgst)) s in
  let manifest := run h (onManifestExpire (CanonicalRef r dgst)) s in
  local_opens (trace blob) = [r] /\
  local_opens (trace manifest) = [r] /\
  (forall err, fst (h _ (Namespace_Repository r) s) = inl err ->
     (result blob = Some err /\ deletes (trace blob) = []
      /\ vacuums (trace blob) = []) /\
     (result manifest = Some err /\ deletes (trace manifest) = [])).
Proof.
  intros blob manifest. split; [|split].
  - destruct (blob_expire_steps h s r dgst)
      as [(e & _ & Htr)
         | (repo & blobs & [(e & _ & Htr) | [(e & _ & Htr) | [_ Htr]]])];
      fold blob in Htr; rewrite Htr; reflexivity.
  - destruct (manifest_expire_steps h s r dgst)
      as [(e & _ & Htr) | (repo & [(e & _ & Htr) | (ms & res & _ & Htr)])];
      fold manifest in Htr; rewrite Htr; reflexivity.
  - intros err Hfail. subst blob manifest.
    unfold onBlobExpire, onManifestExpire. cbn [asCanonical].
    rewrite !run_Call. destruct (h _ (Namespace_Repository r) s) as [x s1].
    cbn in Hfail. subst x. rewrite !run_Ret. cbn. auto.
Qed.

End EvictionMore.

Lemma manifest_expire_never_vacuums_witness :
  let o := run (sim bearer_upstream)
             (onManifestExpire (CanonicalRef (mkNamed "library/redis") "sha256:00"))
             (world_with "sha256:00") in
  result o = None /\ deletes (trace o) = [("sha256:00", None)]
  /\ vacuums (trace o) = [].
Proof.
  intros o.
  destruct (manifest_expire_never_vacuums (sim bearer_upstream)
              (world_with "sha256:00") (mkNamed "library/redis") "sha256:00")
    as (Hvac & _ & _ & Hok).
  fold o in Hvac, Hok.
  assert (Hres : result o = None) by (vm_compute; reflexivity).
  split; [exact Hres|]. split; [exact (Hok Hres) | exact Hvac].
Defined.

Lemma expire_looks_up_the_named_repository_witness :
  let ref := CanonicalRef (mkNamed "library/redis") "sha256:00" in
  let broken := faulty (lookup_fault (ErrOther "unavailable")) bearer_upstream in
  result (run broken (onBlobExpire ref) (world_with "sha256:00"))
    = Some (ErrOther "unavailable") /\
  deletes (trace (run broken (onBlobExpire ref) (world_with "sha256:00"))) = [] /\
  result (run broken (onManifestExpire ref) (world_with "sha256:00"))
    = Some (ErrOther "unavailable").
Proof.
  intros ref broken.
  destruct (expire_looks_up_the_named_repository broken (world_with "sha256:00")
              (mkNamed "library/redis") "sha256:00") as (_ & _ & Hfail).
  destruct (Hfail (ErrOther "unavailable") eq_refl)
    as [(Hb & Hd & _) (Hm & _)].
  auto.
Defined.

(** ** The origin resolver *)

Lemma occurs_dec c s : {occurs c s} + {~ occurs c s}.
Proof.
  destruct (Z.eq_dec (strings.IndexByte s c) (-1)) as [Heq | Hne].
  - right. now apply IndexByte_absent.
  - left. destruct (strings.IndexByte s c) as [|p|p] eqn:Hidx.
    + exists 0%nat. now apply (IndexByte_first s c 0).
    + exists (Pos.to_nat p). apply (IndexByte_first s c (Pos.to_nat p)).
      rewrite Hidx. lia.
    + pose proof (IndexByte_lower s c). lia.
Qed.

(** What [strings.Cut] found is where the string splits. *)
Lemma Cut_inv s b a found :
  strings.Cut s "/" = (b, a, found) ->
  if found then s = b +:+ "/" +:+ a /\ ~ occurs "/" b
  else b = s /\ a = "" /\ ~ occurs "/" s.
Proof.
  intros Hcut. destruct (occurs_dec "/" s) as [Hocc | Hno].
  - destruct (first_slash_split s Hocc) as (b' & a' & -> & Hb').
    rewrite (Cut_found b' a' Hb') in Hcut. injection Hcut as <- <- <-.
    now split.
  - rewrite (Cut_not_found s Hno) in Hcut. injection Hcut as <- <- <-.
    now split.
Qed.

Section ResolverMore.
Context `{NameGrammar}.

(** X3: whatever the resolver returns is an [https] origin without a path and
    with a host that is not empty, and a repository name the grammar
    accepts. *)
Theorem resolved_origin_is_well_formed ctx u rname :
  extractRemoteURL ctx = inr (u, rname) ->
  Scheme u = "https" /\ Path u = "" /\ Host u <> "" /\ name_ok (Name rname) = true.
Proof.
  unfold extractRemoteURL. destruct (GetRequest ctx) as [e|r]; [discriminate|].
  destruct (String.eqb_spec (Values_Get (Query r) "ns") "") as [Hns | Hns].
  - destruct (strings.Cut _ _) as [[seg rest] found].
    destruct found; cbn [negb orb]; [|discriminate].
    destruct (strings.IndexRune seg "." <? 1) eqn:Hdot; [discriminate|].
    unfold WithName. destruct (name_ok rest) eqn:Hok; [|discriminate].
    intros [= <- <-]. repeat split; [|exact Hok].
    cbn. intros ->. discriminate.
  - unfold WithName. destruct (name_ok _) eqn:Hok; [|discriminate].
    intros [= <- <-]. repeat split; [exact Hns | exact Hok].
Qed.


(** X5: on the fallback path host and remote name put together again, with
    the slash between them, are the repository name of the request; the
    host has no slash, and its first period is not in front. *)
Theorem fallback_resolution_round_trip ctx r u rname :
  GetRequest ctx = inr r -> Values_Get (Query r) "ns" = "" ->
  extractRemoteURL ctx = inr (u, rname) ->
  Host u +:+ "/" +:+ Name rname = GetStringValue ctx "vars.name" /\
  ~ occurs "/" (Host u) /\
  (exists i, (1 <= i)%nat /\ first_at "." (Host u) i).
Proof.
  intros Hr Hns.
  destruct (strings.Cut (GetStringValue ctx "vars.name") "/")
    as [[seg rest] found] eqn:Hcut.
  rewrite (extractRemoteURL_fallback ctx r seg rest found Hr Hns Hcut).
  apply Cut_inv in Hcut.
  destruct found; cbn [negb orb]; [|discriminate].
  destruct (strings.IndexRune seg "." <? 1) eqn:Hdot; [discriminate|].
  unfold WithName. destruct (name_ok rest); [|discriminate].
  intros [= <- <-]. cbn. destruct Hcut as [-> Hseg].
  split; [reflexivity|]. split; [exact Hseg|]. now apply IndexRune_ge_1.
Qed.

End ResolverMore.

Lemma resolved_origin_is_well_formed_witness :
  Host (mkURL "https" "h.example.com" "") <> "" /\
  sample_grammar "library/redis" = true.
Proof.
  destruct (@resolved_origin_is_well_formed sample_grammar
              (request_in "h.example.com" "library/redis")
              (mkURL "https" "h.example.com" "") (mkNamed "library/redis"))
    as (_ & _ & Hhost & Hname).
  - vm_compute. reflexivity.
  - split; [exact Hhost | exact Hname].
Defined.


Lemma fallback_resolution_round_trip_witness :
  "registry-1.docker.io" +:+ "/" +:+ "library/redis"
    = GetStringValue (request_for "registry-1.docker.io/library/redis") "vars.name"
  /\ ~ occurs "/" "registry-1.docker.io".
Proof.
  destruct (@fallback_resolution_round_trip sample_grammar
              (request_for "registry-1.docker.io/library/redis") (mkRequest ∅)
              (mkURL "https" "registry-1.docker.io" "") (mkNamed "library/redis"))
    as (Hname & Hhost & _).
  - reflexivity.
  - reflexivity.
  - vm_compute. reflexivity.
  - split; [exact Hname | exact Hhost].
Defined.

(** ** The auth challenger *)

Section ChallengerMore.
Context `{NameGrammar} {S : Type} (h : handler S).

(** Every run of [tryEstablishChallenges] for a resolved origin: the
    manager fails; or it holds a challenge; or it holds none and the
    endpoint is probed. *)
Lemma establish_steps (r : remoteAuthChallenger) (ctx : Context) (u : URL) (s : S) :
  challengedURL r ctx = inr u ->
  let endpoint := with_Path u "/v2/" in
  let o := run h (tryEstablishChallenges r ctx) s in
  (exists err, result o = Some err /\
     trace o = [Entry (Manager_GetChallenges (cm r) endpoint) (inl err)]) \/
  (exists ch chs, result o = None /\
     trace o = [Entry (Manager_GetChallenges (cm r) endpoint) (inr (ch :: chs))]) \/
  (exists res, result o = res /\
     trace o = [Entry (Manager_GetChallenges (cm r) endpoint) (inr []);
                Entry (ping (cm r) endpoint) res]).
Proof.
  intros Hu endpoint o. remember o as o' eqn:Ho. subst o endpoint.
  unfold tryEstablishChallenges in Ho. rewrite Hu in Ho.
  rewrite run_Call in Ho.
  destruct (h _ (Manager_GetChallenges (cm r) (with_Path u "/v2/")) s)
    as [[err | [|ch chs]] s1]; cbn beta iota in Ho.
  all: cbn [length Nat.ltb Nat.leb] in Ho; run_all_steps Ho; subst o'.
  - left. eexists. split; reflexivity.
  - right. right. eexists. split; reflexivity.
  - right. right. eexists. split; reflexivity.
  - right. left. do 2 eexists. split; reflexivity.
Qed.

(** When the origin cannot be resolved the call returns the resolver's
    error and asks nothing of anybody. *)
Lemma establish_unresolved (r : remoteAuthChallenger) (ctx : Context) err (s : S) :
  challengedURL r ctx = inl err ->
  run h (tryEstablishChallenges r ctx) s = (Some err, s, []).
Proof. intros Hu. unfold tryEstablishChallenges. now rewrite Hu. Qed.

(** Whatever a call asks of the manager or probes is the [/v2/] endpoint
    of the origin it is about. *)
Lemma establish_asks_endpoint (r : remoteAuthChallenger) (ctx : Context) (u : URL)
    (s : S) (p : ChallengeManager * URL) :
  challengedURL r ctx = inr u ->
  p ∈ manager_calls (trace (run h (tryEstablishChallenges r ctx) s)) ->
  p = (cm r, with_Path u "/v2/").
Proof.
  intros Hu.
  destruct (establish_steps r ctx u s Hu)
    as [(e & _ & Htr) | [(ch & chs & _ & Htr) | (res & _ & Htr)]];
    rewrite Htr; cbn; intros Hin.
  - now apply list_elem_of_singleton in Hin.
  - now apply list_elem_of_singleton in Hin.
  - apply elem_of_cons in Hin. destruct Hin as [-> | Hin]; [reflexivity|].
    now apply list_elem_of_singleton in Hin.
Qed.

(** X6: with namespaces disabled the challenger does not read the request: any
    two contexts lead to the same run, and whatever is asked of the manager
    or probed is the configured URL with its path set to [/v2/]. *)
Theorem static_challenger_ignores_request
    (r : remoteAuthChallenger) (ctx : Context) (s : S) :
  rac_enableNamespaces r = false ->
  (forall ctx', run h (tryEstablishChallenges r ctx') s
                = run h (tryEstablishChallenges r ctx) s) /\
  (forall p, p ∈ manager_calls (trace (run h (tryEstablishChallenges r ctx) s)) ->
             p = (cm r, with_Path (rac_remoteURL r) "/v2/")).
Proof.
  intros Hoff.
  assert (Hu : forall c, challengedURL r c = inr (rac_remoteURL r))
    by (intros c; unfold challengedURL; now rewrite Hoff).
  split.
  - intros ctx'. unfold tryEstablishChallenges. now rewrite !Hu.
  - intros p. apply establish_asks_endpoint, Hu.
Qed.

(** X7: in namespace mode the challenger follows the resolver: when the
    resolver fails, so does the call, with the resolver's error and without
    asking the manager or probing; when it resolves a host, whatever is
    asked of the manager or probed is [https], that host, [/v2/]. *)
Theorem namespaced_challenger_follows_resolver
    (r : remoteAuthChallenger) (ctx : Context) (s : S) :
  rac_enableNamespaces r = true ->
  (forall err, extractRemoteURL ctx = inl err ->
     run h (tryEstablishChallenges r ctx) s = (Some err, s, [])) /\
  (forall u rname, extractRemoteURL ctx = inr (u, rname) ->
     forall p, p ∈ manager_calls (trace (run h (tryEstablishChallenges r ctx) s)) ->
               p = (cm r, mkURL "https" (Host u) "/v2/")).
Proof.
  intros Hon. split.
  - intros err Hfail. apply establish_unresolved.
    unfold challengedURL. now rewrite Hon, Hfail.
  - intros u rname Hok p.
    assert (Hu : challengedURL r ctx = inr u)
      by (unfold challengedURL; now rewrite Hon, Hok).
    destruct (extractRemoteURL_https ctx u rname Hok) as [Hscheme _].
    replace (mkURL "https" (Host u) "/v2/") with (with_Path u "/v2/")
      by (unfold with_Path; now rewrite Hscheme).
    now apply establish_asks_endpoint.
Qed.

(** X8: a call probes only after the manager has answered that it holds no
    challenge for the endpoint, and then once; the answer to the probe is
    the result of the call, so that a transport error comes back as it is. *)
Theorem probe_answer_is_the_result
    (r : remoteAuthChallenger) (ctx : Context) (u : URL) (s : S) :
  challengedURL r ctx = inr u ->
  probes (trace (run h (tryEstablishChallenges r ctx) s)) <> 0%nat ->
  exists res,
    result (run h (tryEstablishChallenges r ctx) s) = res /\
    trace (run h (tryEstablishChallenges r ctx) s)
      = [Entry (Manager_GetChallenges (cm r) (with_Path u "/v2/")) (inr []);
         Entry (ping (cm r) (with_Path u "/v2/")) res].
Proof.
  intros Hu.
  destruct (establish_steps r ctx u s Hu)
    as [(e & _ & Htr) | [(ch & chs & _ & Htr) | (res & Hres & Htr)]];
    rewrite Htr; cbn; intros Hprobe; try contradiction.
  exists res. split; [exact Hres | reflexivity].
Qed.

(** X9: a call that fails returns the error of the last thing it did: of the
    resolver, having asked nothing, or of the last call it made, all calls
    before it having gone well.  A call that succeeds has met no error and
    has asked the manager. *)
Theorem establish_stops_at_first_failure
    (r : remoteAuthChallenger) (ctx : Context) (s : S) :
  let o := run h (tryEstablishChallenges r ctx) s in
  match result o with
  | Some err =>
      (challengedURL r ctx = inl err /\ trace o = []) \/
      (exists t e, trace o = (t ++ [e])%list /\ entry_error e = Some err /\
                   Forall (fun e' => entry_error e' = None) t)
  | None =>
      Forall (fun e => entry_error e = None) (trace o) /\ trace o <> []
  end.
Proof.
  intros o. destruct (challengedURL r ctx) as [err | u] eqn:Hu.
  - subst o. rewrite (establish_unresolved r ctx err s Hu). cbn. now left.
  - destruct (establish_steps r ctx u s Hu)
      as [(e & Hres & Htr) | [(ch & chs & Hres & Htr) | (res & Hres & Htr)]];
      fold o in Hres, Htr; rewrite Hres, Htr.
    + right. exists [], (Entry (Manager_GetChallenges (cm r) (with_Path u "/v2/")) (inl e)).
      repeat split. constructor.
    + split; [|discriminate]. repeat constructor.
    + destruct res as [e|].
      * right. exists [Entry (Manager_GetChallenges (cm r) (with_Path u "/v2/")) (inr [])],
                 (Entry (ping (cm r) (with_Path u "/v2/")) (Some e)).
        repeat split. repeat constructor.
      * split; [|discriminate]. repeat constructor.
Qed.

End ChallengerMore.

Lemma static_challenger_ignores_request_witness :
  run (sim bearer_upstream)
    (@tryEstablishChallenges sample_grammar (sample_challenger false)
       (mkContext None ∅)) empty_world
  = run (sim bearer_upstream)
      (@tryEstablishChallenges sample_grammar (sample_challenger false)
         (request_in "other.example.com" "library/redis")) empty_world.
Proof.
  destruct (@static_challenger_ignores_request sample_grammar World
              (sim bearer_upstream) (sample_challenger false)
              (request_in "other.example.com" "library/redis") empty_world eq_refl)
    as [Hsame _].
  apply Hsame.
Defined.

Lemma namespaced_challenger_follows_resolver_witness :
  run (sim bearer_upstream)
    (@tryEstablishChallenges sample_grammar (sample_challenger true)
       (request_for "library/redis")) empty_world
  = (Some ErrInvalidNamespace, empty_world, []).
Proof.
  destruct (@namespaced_challenger_follows_resolver sample_grammar World
              (sim bearer_upstream) (sample_challenger true)
              (request_for "library/redis") empty_world eq_refl)
    as [Hfail _].
  apply Hfail. vm_compute. reflexivity.
Defined.

Lemma probe_answer_is_the_result_witness :
  exists res,
    result (run (faulty (probe_fault (ErrOther "connection refused")) bearer_upstream)
              (@tryEstablishChallenges sample_grammar (sample_challenger false)
                 (request_for "library/redis")) empty_world) = res /\
    trace (run (faulty (probe_fault (ErrOther "connection refused")) bearer_upstream)
             (@tryEstablishChallenges sample_grammar (sample_challenger false)
                (request_for "library/redis")) empty_world)
      = [Entry (Manager_GetChallenges (ChallengeManagerRef 0)
                  (mkURL "https" "registry-1.docker.io" "/v2/")) (inr []);
         Entry (ping (ChallengeManagerRef 0)
                  (mkURL "https" "registry-1.docker.io" "/v2/")) res].
Proof.
  apply (@probe_answer_is_the_result sample_grammar World
           (faulty (probe_fault (ErrOther "connection refused")) bearer_upstream)
           (sample_challenger false) (request_for "library/redis")
           (mkURL "https" "registry-1.docker.io" "") empty_world).
  - reflexivity.
  - vm_compute. discriminate.
Defined.

(** ** The proxy registry *)

Section RegistryMore.
Context `{NameGrammar} {S : Type} (h : handler S).

(** A list that is not empty is what precedes its last element, and that
    element. *)
Ltac split_last :=
  match goal with
  | |- exists t e, ?l = _ /\ _ =>
      exists (removelast l); eexists; split; [cbn; reflexivity|]
  end.

(** X10: a call of [Repository] that fails returns the error of the last thing
    it did: of the resolution of its names, having called nobody, or of the
    last call it made, all calls before it having gone well.  A call that
    succeeds has met no error in the eight calls it has made. *)
Theorem Repository_stops_at_first_failure pr ctx requested (s : S) :
  let o := run h (Repository pr ctx requested) s in
  match result o with
  | inl err =>
      (resolveNames pr ctx requested = inl err /\ trace o = []) \/
      (exists t e, trace o = (t ++ [e])%list /\ entry_error e = Some err /\
                   Forall (fun e' => entry_error e' = None) t)
  | inr _ =>
      Forall (fun e => entry_error e = None) (trace o) /\
      length (trace o) = 8%nat
  end.
Proof.
  intros o.
  destruct (resolveNames pr ctx requested) as [err | [[localName u] rname]] eqn:Hnames.
  - subst o. rewrite (Repository_unresolved h pr ctx requested err s Hnames).
    cbn. now left.
  - remember o as o' eqn:Ho. subst o. unfold Repository in Ho.
    rewrite Hnames in Ho. run_all_steps Ho; subst o'; cbn [result trace fst snd].
    all: try (right; split_last; split; [reflexivity | repeat constructor]).
    split; [repeat constructor | reflexivity].
Qed.

(** X11: in namespace mode a request whose names do not resolve is turned down
    before anybody is called: with the resolver's error; or, the resolver
    having succeeded, with the parse error of the composite local name. *)
Theorem Repository_unresolved_calls_nobody pr ctx requested (s : S) :
  enableNamespaces pr = true ->
  (forall err, extractRemoteURL ctx = inl err ->
     run h (Repository pr ctx requested) s = (inl err, s, [])) /\
  (forall u rname, extractRemoteURL ctx = inr (u, rname) ->
     name_ok (Host u +:+ "/" +:+ Name rname) = false ->
     run h (Repository pr ctx requested) s
       = (inl (ErrNameParse (Host u +:+ "/" +:+ Name rname)), s, [])).
Proof.
  intros Hon. split.
  - intros err Hfail. apply Repository_unresolved.
    unfold resolveNames. now rewrite Hon, Hfail.
  - intros u rname Hok Hbad. apply Repository_unresolved.
    unfold resolveNames, WithName. now rewrite Hon, Hok, Hbad.
Qed.

(** X12: whatever remote client [Repository] opens, in either mode, is given a
    transport made of the challenger's manager and credential store and
    scoped to pulling the name [Repository] was called with. *)
Theorem remote_client_transport pr ctx requested (s : S) (tr : Transport) :
  tr ∈ remote_transports (trace (run h (Repository pr ctx requested) s)) ->
  tr = mkTransport (cm (authChallenger pr)) (cs (authChallenger pr))
         [mkScope (Name requested) ["pull"]].
Proof.
  destruct (resolveNames pr ctx requested) as [err | [[localName u] rname]] eqn:Hnames.
  - rewrite (Repository_unresolved h pr ctx requested err s Hnames). cbn.
    intros Hin. now apply elem_of_nil in Hin.
  - remember (run h (Repository pr ctx requested) s) as o eqn:Ho.
    unfold Repository in Ho. rewrite Hnames in Ho.
    run_all_steps Ho; subst o; cbn; intros Hin.
    all: first [ now apply elem_of_nil in Hin
               | apply list_elem_of_singleton in Hin; exact Hin ].
Qed.

(** X13: a call of [Repository] that succeeds has made these eight calls in this
    order, each of which went well, and hands out a repository made of what
    they returned: local and remote accessors side by side, the scheduler
    and the challenger of the registry, the local name in the blob and
    manifest stores, the request context in the manifest store. *)
Theorem Repository_success_wiring pr ctx requested localName u rname (s : S) repo :
  resolveNames pr ctx requested = inr (localName, u, rname) ->
  result (run h (Repository pr ctx requested) s) = inr repo ->
  exists localRepo lm remoteRepo rm lb rb lt rt,
    trace (run h (Repository pr ctx requested) s) =
      [Entry (Namespace_Repository localName) (inr localRepo);
       Entry (Repository_Manifests localRepo [SkipLayerVerification]) (inr lm);
       Entry (client_NewRepository rname u
                (pullTransport (authChallenger pr) requested)) (inr remoteRepo);
       Entry (Repository_Manifests remoteRepo []) (inr rm);
       Entry (Repository_Blobs localRepo) lb;
       Entry (Repository_Blobs remoteRepo) rb;
       Entry (Repository_Tags localRepo) lt;
       Entry (Repository_Tags remoteRepo) rt] /\
    repo = mkProxiedRepository
             (mkProxyBlobStore lb rb (scheduler pr) localName (authChallenger pr))
             (mkProxyManifestStore localName lm rm ctx (scheduler pr)
                (authChallenger pr))
             rname
             (mkProxyTagService lt rt (authChallenger pr)).
Proof.
  intros Hnames.
  remember (run h (Repository pr ctx requested) s) as o eqn:Ho.
  unfold Repository in Ho. rewrite Hnames in Ho.
  run_all_steps Ho; subst o; cbn [result trace fst snd]; try discriminate.
  intros [= <-]. do 8 eexists. split; reflexivity.
Qed.

(** X14: in namespace mode the local name a successful [Repository] call opens
    is, on the fallback path, the repository name of the request as it
    stands; and with a namespace given, that namespace, a slash and the
    repository name of the request. *)
Theorem namespaced_local_name pr ctx r requested (s : S) repo :
  enableNamespaces pr = true ->
  GetRequest ctx = inr r ->
  result (run h (Repository pr ctx requested) s) = inr repo ->
  local_opens (trace (run h (Repository pr ctx requested) s)) =
    [mkNamed (if String.eqb (Values_Get (Query r) "ns") ""
              then GetStringValue ctx "vars.name"
              else Values_Get (Query r) "ns" +:+ "/"
                   +:+ GetStringValue ctx "vars.name")].
Proof.
  intros Hon Hr Hok.
  destruct (resolveNames pr ctx requested) as [err | [[localName u] rname]] eqn:Hnames.
  - rewrite (Repository_unresolved h pr ctx requested err s Hnames) in Hok.
    discriminate.
  - destruct (resolveNames_namespaced _ _ _ _ _ _ Hon Hnames) as [Hextract ->].
    destruct (Repository_steps h pr ctx requested _ _ _ s Hnames) as (-> & _).
    do 2 f_equal.
    destruct (String.eqb_spec (Values_Get (Query r) "ns") "") as [Hns | Hns].
    + pose proof (extractRemoteURL_fallback ctx r) as Hfb.
      destruct (strings.Cut (GetStringValue ctx "vars.name") "/")
        as [[seg rest] found] eqn:Hcut.
      rewrite (Hfb seg rest found Hr Hns eq_refl) in Hextract.
      apply Cut_inv in Hcut.
      destruct found; cbn [negb orb] in Hextract; [|discriminate].
      destruct (strings.IndexRune seg "." <? 1); [discriminate|].
      unfold WithName in Hextract. destruct (name_ok rest); [|discriminate].
      injection Hextract as <- <-. cbn. now destruct Hcut as [-> _].
    + rewrite (extractRemoteURL_explicit ctx r Hr Hns) in Hextract.
      unfold WithName in Hextract. destruct (name_ok _); [|discriminate].
      injection Hextract as <- <-. reflexivity.
Qed.

(** X15: a registry made by the constructor and its challenger agree on the
    origin: for one request context, whatever the challenger asks of the
    manager or probes is the [/v2/] endpoint of the URL the remote client of
    [Repository] is opened at. *)
Theorem constructed_challenger_and_repository_agree
    out config pr ctx requested (s s' : S) n u p :
  NewRegistryPullThroughCache out config = inr pr ->
  (n, u) ∈ remote_opens (trace (run h (Repository pr ctx requested) s)) ->
  p ∈ manager_calls
        (trace (run h (tryEstablishChallenges (authChallenger pr) ctx) s')) ->
  p = (cm (authChallenger pr), with_Path u "/v2/").
Proof.
  intros Hnew Hopen Hask.
  assert (Hshared : rac_remoteURL (authChallenger pr) = remoteURL pr /\
                    rac_enableNamespaces (authChallenger pr) = enableNamespaces pr).
  { unfold NewRegistryPullThroughCache in Hnew.
    destruct (url_Parse out _); [discriminate|].
    destruct (scheduler_Start out); [discriminate|].
    destruct (configureAuth out _); [discriminate|].
    injection Hnew as <-. now split. }
  destruct Hshared as [Hurl Hmode].
  destruct (resolveNames pr ctx requested) as [err | [[localName u'] rname]] eqn:Hnames.
  - rewrite (Repository_unresolved h pr ctx requested err s Hnames) in Hopen.
    now apply elem_of_nil in Hopen.
  - destruct (Repository_steps h pr ctx requested _ _ _ s Hnames)
      as (_ & [Hremote | Hremote] & _); rewrite Hremote in Hopen.
    + now apply elem_of_nil in Hopen.
    + apply list_elem_of_singleton in Hopen. injection Hopen as -> ->.
      apply (establish_asks_endpoint h (authChallenger pr) ctx u' s' p); [|exact Hask].
      unfold challengedURL. rewrite Hmode.
      destruct (enableNamespaces pr) eqn:Hon.
      * destruct (resolveNames_namespaced _ _ _ _ _ _ Hon Hnames) as [-> _].
        reflexivity.
      * rewrite (resolveNames_static pr ctx requested Hon) in Hnames.
        injection Hnames as _ <- _. now rewrite Hurl.
Qed.

End RegistryMore.

(** X16: with namespaces disabled the constructor builds its credentials from
    the remote URL, the user name and the password alone: the configured
    namespace credentials make no difference, and the credential store is
    what [configureAuth] makes of that single entry.  With namespaces
    enabled it is the user name and the password that make no difference. *)
Theorem constructor_credentials (out : Outside) (config : Proxy) :
  (EnableNamespaces config = false ->
   (forall credentials,
       NewRegistryPullThroughCache out
         (mkProxy (RemoteURL config) (Username config) (Password config)
            false credentials)
       = NewRegistryPullThroughCache out config) /\
   (forall pr, NewRegistryPullThroughCache out config = inr pr ->
       configureAuth out
         {[ RemoteURL config :=
              mkProxyCredential (Username config) (Password config) ]}
       = inr (cs (authChallenger pr)))) /\
  (EnableNamespaces config = true ->
   (forall user password,
       NewRegistryPullThroughCache out
         (mkProxy (RemoteURL config) user password true
            (NamespaceCredentials config))
       = NewRegistryPullThroughCache out config) /\
   (forall pr, NewRegistryPullThroughCache out config = inr pr ->
       configureAuth out (NamespaceCredentials config)
       = inr (cs (authChallenger pr)))).
Proof.
  destruct config as [url user password namespaces credentials]. cbn.
  split; intros ->; (split; [reflexivity|]).
  all: intros pr; unfold NewRegistryPullThroughCache; cbn.
  all: destruct (url_Parse out url); [discriminate|].
  all: destruct (scheduler_Start out); [discriminate|].
  all: destruct (configureAuth out _); [discriminate|].
  all: now intros [= <-].
Qed.

Lemma Repository_unresolved_calls_nobody_witness :
  run (sim bearer_upstream)
    (@Repository sample_grammar (sample_registry true)
       (request_in "Bad Host" "library/redis") (mkNamed "library/redis"))
    empty_world
  = (inl (ErrNameParse "Bad Host/library/redis"), empty_world, []).
Proof.
  destruct (@Repository_unresolved_calls_nobody sample_grammar World
              (sim bearer_upstream) (sample_registry true)
              (request_in "Bad Host" "library/redis") (mkNamed "library/redis")
              empty_world eq_refl) as [_ Hcomposite].
  apply (Hcomposite (mkURL "https" "Bad Host" "") (mkNamed "library/redis")).
  - vm_compute. reflexivity.
  - vm_compute. reflexivity.
Defined.

Lemma remote_client_transport_witness :
  mkTransport (ChallengeManagerRef 0) (CredentialStoreRef 0)
    [mkScope "registry-1.docker.io/library/redis" ["pull"]]
  = mkTransport (cm (authChallenger (sample_registry true)))
      (cs (authChallenger (sample_registry true)))
      [mkScope (Name (mkNamed "registry-1.docker.io/library/redis")) ["pull"]]
  /\ remote_opens
       (trace (run (sim bearer_upstream)
                 (@Repository sample_grammar (sample_registry true)
                    (request_for "registry-1.docker.io/library/redis")
                    (mkNamed "registry-1.docker.io/library/redis"))
                 empty_world))
     = [(mkNamed "library/redis", mkURL "https" "registry-1.docker.io" "")].
Proof.
  split.
  - apply (@remote_client_transport sample_grammar World (sim bearer_upstream)
             (sample_registry true)
             (request_for "registry-1.docker.io/library/redis")
             (mkNamed "registry-1.docker.io/library/redis") empty_world).
    vm_compute. apply list_elem_of_singleton. reflexivity.
  - vm_compute. reflexivity.
Defined.

Lemma Repository_success_wiring_witness :
  let pr := sample_registry false in
  let ctx := request_for "library/redis" in
  let requested := mkNamed "library/redis" in
  let o := run (sim bearer_upstream)
             (@Repository sample_grammar pr ctx requested) empty_world in
  exists repo,
    result o = inr repo /\
    exists localRepo lm remoteRepo rm lb rb lt rt,
      trace o =
        [Entry (Namespace_Repository requested) (inr localRepo);
         Entry (Repository_Manifests localRepo [SkipLayerVerification]) (inr lm);
         Entry (client_NewRepository requested (remoteURL pr)
                  (pullTransport (authChallenger pr) requested)) (inr remoteRepo);
         Entry (Repository_Manifests remoteRepo []) (inr rm);
         Entry (Repository_Blobs localRepo) lb;
         Entry (Repository_Blobs remoteRepo) rb;
         Entry (Repository_Tags localRepo) lt;
         Entry (Repository_Tags remoteRepo) rt] /\
      repo = mkProxiedRepository
               (mkProxyBlobStore lb rb (scheduler pr) requested (authChallenger pr))
               (mkProxyManifestStore requested lm rm ctx (scheduler pr)
                  (authChallenger pr))
               requested
               (mkProxyTagService lt rt (authChallenger pr)).
Proof.
  intros pr ctx requested o.
  assert (Hok : exists repo, result o = inr repo)
    by (eexists; vm_compute; reflexivity).
  destruct Hok as [repo Hok]. exists repo. split; [exact Hok|].
  exact (@Repository_success_wiring sample_grammar World (sim bearer_upstream)
           pr ctx requested requested (remoteURL pr) requested
           empty_world repo eq_refl Hok).
Defined.

Lemma namespaced_local_name_witness :
  local_opens
    (trace (run (sim bearer_upstream)
              (@Repository sample_grammar (sample_registry true)
                 (request_for "registry-1.docker.io/library/redis")
                 (mkNamed "registry-1.docker.io/library/redis"))
              empty_world))
  = [mkNamed "registry-1.docker.io/library/redis"].
Proof.
  assert (Hok : exists repo,
             result (run (sim bearer_upstream)
                       (@Repository sample_grammar (sample_registry true)
                          (request_for "registry-1.docker.io/library/redis")
                          (mkNamed "registry-1.docker.io/library/redis"))
                       empty_world) = inr repo)
    by (eexists; vm_compute; reflexivity).
  destruct Hok as [repo Hok].
  exact (@namespaced_local_name sample_grammar World (sim bearer_upstream)
           (sample_registry true)
           (request_for "registry-1.docker.io/library/redis") (mkRequest ∅)
           (mkNamed "registry-1.docker.io/library/redis") empty_world repo
           eq_refl eq_refl Hok).
Defined.

Lemma constructed_challenger_and_repository_agree_witness :
  (ChallengeManagerRef 0, mkURL "https" "registry-1.docker.io" "/v2/")
  = (cm (authChallenger (sample_registry false)),
     with_Path (mkURL "https" "registry-1.docker.io" "") "/v2/").
Proof.
  apply (@constructed_challenger_and_repository_agree sample_grammar World
           (sim bearer_upstream) sample_outside (sample_config false)
           (sample_registry false) (request_for "library/redis")
           (mkNamed "library/redis") empty_world empty_world
           (mkNamed "library/redis")).
  - vm_compute. reflexivity.
  - vm_compute. apply list_elem_of_singleton. reflexivity.
  - vm_compute. apply elem_of_cons. now left.
Defined.

Lemma constructor_credentials_witness :
  NewRegistryPullThroughCache sample_outside
    (mkProxy "https://registry-1.docker.io" "user" "secret" false ∅)
  = NewRegistryPullThroughCache sample_outside (sample_config false)
  /\ NewRegistryPullThroughCache sample_outside (sample_config false)
     = inr (sample_registry false).
Proof.
  destruct (constructor_credentials sample_outside (sample_config false))
    as [Hoff _].
  destruct (Hoff eq_refl) as [Hsame _].
  split; [exact (Hsame ∅) | vm_compute; reflexivity].
Defined.
